(** * RestCallPackage: the request execution pipeline of package [network]

    A shallow embedding of [network.go] and of the part of [config.go]
    that the pipeline reads, together with the properties of the retry
    loop, the retry decision, the payload codec and the header
    sanitizer.

    Conventions.
    - A Go [string] is a sequence of bytes: [string] of the Standard
      Library, one [ascii] per byte.  [len] is the number of bytes.
    - A Go [int] is a 64-bit two's complement integer (amd64, arm64): a
      [Z] in the range of [int_ok], arithmetic is followed by [wrap].
    - A Go [error] is represented by its message (what [Error()]
      returns); the [nil] error is [None].
    - A Go [map[string]T] is a [gmap string T]; a [nil] map is [None].
    - The platform (transport, clock, context) is not part of the
      package: what it does at each attempt is read from a [World]. *)

From Stdlib Require Import ZArith Strings.String Strings.Ascii Numbers.DecimalString.
From Stdlib Require DecimalZ DecimalPos.
From stdpp Require Import gmap strings list.

Open Scope string_scope.
Open Scope list_scope.
Open Scope Z_scope.

(** ** Go strings *)

Module GoString.

(** [strings.HasPrefix] *)
Fixpoint HasPrefix (s prefix : string) : bool :=
  match prefix, s with
  | EmptyString, _ => true
  | String _ _, EmptyString => false
  | String c p, String d s' => if Ascii.eqb c d then HasPrefix s' p else false
  end.

(** [strings.Contains] *)
Fixpoint Contains (s substr : string) : bool :=
  HasPrefix s substr ||
  match s with
  | EmptyString => false
  | String _ s' => Contains s' substr
  end.

(** One byte of [strings.ToLower]: the letters A..Z (65..90) move to
    a..z, every other byte stays.  This is [strings.ToLower] on a string
    of ASCII bytes, which header field names are; on other strings
    [strings.ToLower] also maps letters of other scripts (U+212A to k),
    which is not modelled: a property that rests on the lower-cased
    name not holding a term is stated for ASCII names ([ascii_only]). *)
Definition lower (c : ascii) : ascii :=
  let n := nat_of_ascii c in
  if Nat.leb 65 n && Nat.leb n 90 then ascii_of_nat (n + 32) else c.

(** [strings.ToLower] *)
Fixpoint ToLower (s : string) : string :=
  match s with
  | EmptyString => EmptyString
  | String c s' => String (lower c) (ToLower s')
  end.

(** [len(s)] *)
Definition len (s : string) : Z := Z.of_nat (String.length s).

(** [s[:n]] for [0 <= n <= len(s)] *)
Definition slice_to (s : string) (n : nat) : string := String.substring 0 n s.

(** The verb [%d] of [fmt.Sprintf] on an [int]. *)
Definition itoa (n : Z) : string := NilZero.string_of_int (Z.to_int n).

(** The one-byte string holding a double quote (byte 34). *)
Definition dquote : string := String (ascii_of_nat 34) EmptyString.

(** The one-byte string holding a backslash (byte 92). *)
Definition backslash : string := String (ascii_of_nat 92) EmptyString.

(** [sub] occurs in [s]: the meaning of "contains the substring". *)
Definition substring_of (sub s : string) : Prop :=
  ∃ l r, s = l +:+ sub +:+ r.

(** [term] occurs in [s] up to the case of letters. *)
Definition substring_nocase (term s : string) : Prop :=
  ∃ l m r, s = l +:+ m +:+ r ∧ ToLower m = ToLower term.

End GoString.
Import GoString.

(** ** Go integers *)

Definition min_int : Z := - 2 ^ 63.
Definition max_int : Z := 2 ^ 63 - 1.
Definition int_ok (z : Z) : Prop := min_int <= z <= max_int.

(** The result of an [int] operation whose mathematical value is [z]. *)
Definition wrap (z : Z) : Z := (z + 2 ^ 63) mod 2 ^ 64 - 2 ^ 63.

(** ** Errors *)

Definition error := string.

(** ** config.go *)

Definition Duration := Z.
Definition Second : Duration := 1000000000.

Record TLSConfig := {
  InsecureSkipVerify : bool;
  RootCAPath : string;
  CertFile : string;
  KeyFile : string }.

Record TimeoutConfig := {
  DialTimeout : Duration;
  TLSHandshakeTimeout : Duration;
  ResponseHeaderTimeout : Duration;
  IdleConnTimeout : Duration;
  ExpectContinueTimeout : Duration }.

Record ConnectionConfig := {
  MaxIdleConns : Z;
  MaxIdleConnsPerHost : Z;
  MaxConnsPerHost : Z }.

Record RetryConfig := {
  MaxRetries : Z;
  RetryDelay : Duration;
  RetryOnStatus : list Z }.

Record LoggingConfig := {
  Enabled : bool;
  LogRequestBody : bool;
  LogResponseBody : bool;
  LogHeaders : bool;
  SanitizeHeaders : bool }.

(** The five sub-configurations are pointers in Go; a [Config] whose
    pointers are all set is modelled.  A field cannot bear the name of
    its type here: the fields [TLSConfig], [TimeoutConfig],
    [ConnectionConfig], [RetryConfig] and [LoggingConfig] are [TLS],
    [Timeouts], [Connection], [Retry] and [Logging]. *)
Record Config := {
  BaseTimeout : Duration;
  TLS : TLSConfig;
  Timeouts : TimeoutConfig;
  Connection : ConnectionConfig;
  Retry : RetryConfig;
  Logging : LoggingConfig }.

Definition NewConfig (baseTimeout : Duration) : Config :=
  {| BaseTimeout := baseTimeout;
     TLS := {| InsecureSkipVerify := false; RootCAPath := "";
               CertFile := ""; KeyFile := "" |};
     Timeouts := {| DialTimeout := 5 * Second;
                    TLSHandshakeTimeout := 10 * Second;
                    ResponseHeaderTimeout := 10 * Second;
                    IdleConnTimeout := 90 * Second;
                    ExpectContinueTimeout := 1 * Second |};
     Connection := {| MaxIdleConns := 100; MaxIdleConnsPerHost := 10;
                      MaxConnsPerHost := 0 |};
     Retry := {| MaxRetries := 0; RetryDelay := 1 * Second;
                 RetryOnStatus := [500; 502; 503; 504] |};
     Logging := {| Enabled := true; LogRequestBody := true;
                   LogResponseBody := true; LogHeaders := true;
                   SanitizeHeaders := true |} |}.

Definition WithRetry (c : Config) (r : RetryConfig) : Config :=
  {| BaseTimeout := BaseTimeout c; TLS := TLS c; Timeouts := Timeouts c;
     Connection := Connection c; Retry := r; Logging := Logging c |}.

Definition WithLogging (c : Config) (l : LoggingConfig) : Config :=
  {| BaseTimeout := BaseTimeout c; TLS := TLS c; Timeouts := Timeouts c;
     Connection := Connection c; Retry := Retry c; Logging := l |}.

(** [Validate]: the first violated rule, [None] when there is none. *)
Definition Validate (c : Config) : option error :=
  if BaseTimeout c <=? 0 then Some "baseTimeout must be greater than 0"
  else if DialTimeout (Timeouts c) <=? 0 then Some "dialTimeout must be greater than 0"
  else if TLSHandshakeTimeout (Timeouts c) <=? 0 then Some "tlsHandshakeTimeout must be greater than 0"
  else if MaxIdleConns (Connection c) <? 0 then Some "maxIdleConns cannot be negative"
  else if MaxIdleConnsPerHost (Connection c) <? 0 then Some "maxIdleConnsPerHost cannot be negative"
  else if MaxRetries (Retry c) <? 0 then Some "maxRetries cannot be negative"
  else None.

(** ** network.go: package state *)

(** The package-level variables [config] and [isInitialized];
    [httpClient] is a function of [config] ([createHTTPClient]).
    [config] is a pointer to the caller's [Config]: the model holds the
    configuration it points to when a call is made, and has no step for
    a caller that writes through the pointer between two calls. *)
Record Package := {
  config : option Config;
  isInitialized : bool }.

Definition uninitialized : Package := {| config := None; isInitialized := false |}.

Definition Init (cfg : Config) (st : Package) : Package * option error :=
  match Validate cfg with
  | Some e => (st, Some ("invalid configuration: " +:+ e))
  | None => ({| config := Some cfg; isInitialized := true |}, None)
  end.

(** ** network.go: sanitizeHeaderValue *)

Definition sensitiveHeaders : list string :=
  ["authorization"; "auth"; "token"; "api-key"; "x-api-key"; "bearer"].

(** The [for] loop over [sensitiveHeaders]: the first term found in
    [lowerKey] decides. *)
Fixpoint sanitize_loop (terms : list string) (lowerKey value : string) : string :=
  match terms with
  | [] => value
  | sensitive :: rest =>
      if Contains lowerKey sensitive then
        if 10 <? len value then slice_to value 10 +:+ "..." else "***"
      else sanitize_loop rest lowerKey value
  end.

Definition sanitizeHeaderValue (key value : string) : string :=
  sanitize_loop sensitiveHeaders (ToLower key) value.

(** The revision of the sanitizer that logs through package [log] (the
    second copy of [network.go] among the sources) differs in one
    branch: a sensitive value of 10 bytes or fewer is followed by the
    ellipsis instead of being replaced. *)
Module Superseded.

Fixpoint sanitize_loop (terms : list string) (lowerKey value : string) : string :=
  match terms with
  | [] => value
  | sensitive :: rest =>
      if Contains lowerKey sensitive then
        if 10 <? len value then slice_to value 10 +:+ "..." else value +:+ "..."
      else sanitize_loop rest lowerKey value
  end.

Definition sanitizeHeaderValue (key value : string) : string :=
  sanitize_loop sensitiveHeaders (ToLower key) value.

End Superseded.

(** ** network.go: shouldRetry *)

(** The [for] loop over [config.RetryConfig.RetryOnStatus]. *)
Fixpoint status_loop (codes : list Z) (errStr : string) : bool :=
  match codes with
  | [] => false
  | statusCode :: rest =>
      let statusStr := "response code: " +:+ itoa statusCode in
      if Contains errStr statusStr then true else status_loop rest errStr
  end.

Definition shouldRetry (cfg : Config) (err : option error) : bool :=
  match err with
  | None => false
  | Some errStr =>
      if status_loop (RetryOnStatus (Retry cfg)) errStr then true
      else Contains errStr "connection" ||
           Contains errStr "timeout" ||
           Contains errStr "EOF"
  end.

(** ** The platform *)

(** An [io.Reader] handed to the pipeline as request body.  The package
    creates [*bytes.Buffer] (which has no [Seek] method) and
    [*strings.Reader] (which has one); [off] is the read position. *)
Inductive Reader :=
| NilReader
| BytesBuffer (data : string) (off : nat)
| StringsReader (data : string) (off : nat).

Definition drop_bytes (n : nat) (s : string) : string :=
  String.substring n (String.length s - n) s.

(** What a reader still has to deliver; [None] for the [nil] reader. *)
Definition unread (r : Reader) : option string :=
  match r with
  | NilReader => None
  | BytesBuffer d off | StringsReader d off => Some (drop_bytes off d)
  end.

(** The reader after [n] more bytes were read from it. *)
Definition advance (n : nat) (r : Reader) : Reader :=
  match r with
  | NilReader => NilReader
  | BytesBuffer d off => BytesBuffer d (Nat.min (String.length d) (off + n))
  | StringsReader d off => StringsReader d (Nat.min (String.length d) (off + n))
  end.

(** An [*http.Request] as built by [http.NewRequestWithContext] and the
    loop over [headers]: the body is what the reader delivers, and
    [req_header] holds the names as the caller's map spells them
    ([Header.Add] files two spellings of one name under one name). *)
Record Request := {
  req_method : string;
  req_url : string;
  req_header : gmap string string;
  req_body : option string }.

(** What the transport does with one request: [http.NewRequestWithContext]
    fails, [httpClient.Do] fails, [io.ReadAll] of the response body
    fails, or a response with a status code and a body arrives. *)
Inductive Transport :=
| NewRequestError (e : error)
| DoError (e : error)
| ReadError (status : Z) (e : error)
| Response (status : Z) (body : string).

(** What the platform does at one iteration of the attempt loop.
    - [ctx_done]: the [select] before a retry; [Some e] when
      [<-ctx.Done()] is taken, [e] being [ctx.Err()];
    - [transport]: the round trip;
    - [consumed]: how many bytes of the request body the transport read;
    - [elapsed]: [time.Since(startTime)];
    - [ctx_err]: [ctx.Err()] after the attempt. *)
Record Attempt := {
  ctx_done : option error;
  transport : Transport;
  consumed : nat;
  elapsed : Duration;
  ctx_err : option error }.

(** The platform during one call: attempt index to behaviour. *)
Definition World := nat → Attempt.

(** What a call does besides returning: requests given to
    [httpClient.Do] and entries given to the logger.  The logger's
    rendering ([formatBody], [json.Marshal], colours, timestamps) is not
    modelled: an entry carries what is rendered. *)
Inductive Event :=
| Do (req : Request)
| LogRequestEv (method endpoint description : string)
               (headers : option (gmap string string)) (payload : option string)
| LogResponseEv (description : string) (status : option Z) (duration : Duration)
                (response : option string)
| LogErrorEv (property message : string)
| LogWarningEv (property message : string).

(** ** Logging *)

(** The map [formatted] of [formatHeaders], before [json.Marshal]. *)
Definition formatHeaders (headers : gmap string string) (sanitize : bool) : gmap string string :=
  map_imap (λ key value, Some (if sanitize then sanitizeHeaderValue key value else value)) headers.

Definition logRequest (cfg : Config) (method endpoint description : string)
    (headers : option (gmap string string)) (payload : string) : list Event :=
  if negb (Enabled (Logging cfg)) then []
  else
    [LogRequestEv method endpoint description
       (if LogHeaders (Logging cfg)
        then (λ h, formatHeaders h (SanitizeHeaders (Logging cfg))) <$> headers
        else None)
       (if LogRequestBody (Logging cfg) then Some payload else None)].

Definition logResponseWithDuration (cfg : Config) (description response : string)
    (statusCode : Z) (duration : Duration) : list Event :=
  if negb (Enabled (Logging cfg)) then []
  else
    [LogResponseEv description
       (if statusCode =? 0 then None else Some statusCode)
       duration
       (if LogResponseBody (Logging cfg) then Some response else None)].

(** ** network.go: one attempt *)

(** The result of one attempt: body and error as returned, the body
    reader as the attempt leaves it, the events of the attempt. *)
Record Once := {
  once_body : string;
  once_err : option error;
  once_reader : Reader;
  once_events : list Event }.

Definition executeRequestOnce (cfg : Config) (a : Attempt)
    (method description urlStr : string) (body : Reader) (payloadStr : string)
    (headers : option (gmap string string)) : Once :=
  let req := {| req_method := method; req_url := urlStr;
                req_header := default ∅ headers; req_body := unread body |} in
  let log := logRequest cfg method urlStr description headers payloadStr in
  let body' := advance (consumed a) body in
  match transport a with
  | NewRequestError err => Build_Once "" (Some err) body []
  | DoError err =>
      Build_Once "" (Some err) body'
        (log ++ [Do req; LogErrorEv "request-error" (description +:+ ": " +:+ err)])
  | ReadError _ err =>
      Build_Once "" (Some err) body' (log ++ [Do req])
  | Response statusCode responseBody =>
      let log' := log ++ [Do req] ++
                  logResponseWithDuration cfg description responseBody statusCode (elapsed a) in
      if (statusCode <? 200) || (300 <=? statusCode) then
        Build_Once responseBody
          (Some ("received non-2xx response code: " +:+ itoa statusCode)) body' log'
      else Build_Once responseBody None body' log'
  end.

(** ** network.go: the attempt loop *)

(** The result of a call: body and error as returned, the number of
    calls of [executeRequestOnce], the events in order. *)
Record Result := {
  res_body : string;
  res_err : option error;
  res_attempts : nat;
  res_events : list Event }.

(** "Reset body reader for retry": a seeker is rewound, any other
    non-nil reader is recreated from [payloadStr]. *)
Definition reset_body (body : Reader) (payloadStr : string) : Reader :=
  match body with
  | StringsReader d _ => StringsReader d 0
  | BytesBuffer _ _ => StringsReader payloadStr 0
  | NilReader => NilReader
  end.

(** The [for] loop of [executeRequestWithRetry] from iteration [attempt]
    on, [fuel] iterations being left before [attempt < maxAttempts]
    fails.  [n] counts the attempts and [evs] collects the events so
    far. *)
Fixpoint attempt_loop (cfg : Config) (w : World) (maxAttempts : Z)
    (method description urlStr payloadStr : string)
    (headers : option (gmap string string))
    (fuel attempt : nat) (body : Reader)
    (responseBody : string) (lastErr : option error)
    (n : nat) (evs : list Event) : Result :=
  match fuel with
  | O => Build_Result responseBody lastErr n evs
  | S fuel' =>
      let a := w attempt in
      match (if Nat.ltb 0 attempt then ctx_done a else None) with
      | Some ctxErr => Build_Result "" (Some ctxErr) n evs
      | None =>
          let body1 := if Nat.ltb 0 attempt then reset_body body payloadStr else body in
          let evs1 :=
            if Nat.ltb 0 attempt
            then evs ++ [LogWarningEv "retry"
                           ("Attempt " +:+ itoa (Z.of_nat attempt + 1) +:+ "/" +:+
                            itoa maxAttempts +:+ " for " +:+ description)]
            else evs in
          let r := executeRequestOnce cfg a method description urlStr body1 payloadStr headers in
          let evs2 := evs1 ++ once_events r in
          if bool_decide (once_err r = None) || bool_decide (ctx_err a ≠ None) then
            Build_Result (once_body r) (once_err r) (S n) evs2
          else if negb (shouldRetry cfg (once_err r)) then
            Build_Result (once_body r) (once_err r) (S n) evs2
          else
            attempt_loop cfg w maxAttempts method description urlStr payloadStr headers
              fuel' (S attempt) (once_reader r) (once_body r) (once_err r) (S n) evs2
      end
  end.

Definition executeRequestWithRetry (cfg : Config) (w : World)
    (method description urlStr : string) (body : Reader) (payloadStr : string)
    (headers : option (gmap string string)) : Result :=
  let maxAttempts := wrap (MaxRetries (Retry cfg) + 1) in
  attempt_loop cfg w maxAttempts method description urlStr payloadStr headers
    (Z.to_nat maxAttempts) 0 body "" None 0 [].

(** ** network.go: executeRequest *)

Definition ensureInitialized (st : Package) : Package * list Event :=
  if isInitialized st then (st, [])
  else
    let defaultConfig := NewConfig (30 * Second) in
    match Init defaultConfig st with
    | (st', Some err) =>
        (st', [LogErrorEv "init-error"
                 ("Failed to initialize with default configuration: " +:+ err)])
    | (st', None) => (st', [])
    end.

(** The events of [ensureInitialized] put before those of the loop. *)
Definition after (evs : list Event) (r : Result) : Result :=
  Build_Result (res_body r) (res_err r) (res_attempts r) (evs ++ res_events r).

(** [None] is the run-time panic of reading [config.BaseTimeout]
    through a [nil] [config]. *)
Definition executeRequest (st : Package) (w : World)
    (method description urlStr : string) (body : Reader) (payloadStr : string)
    (headers : option (gmap string string)) : Package * option Result :=
  let '(st1, evs) := ensureInitialized st in
  (st1,
   match config st1 with
   | None => None
   | Some cfg =>
       Some (after evs (executeRequestWithRetry cfg w method description urlStr
                          body payloadStr headers))
   end).

(** ** network.go: the payload codec *)

(** Modelled from the spec: the constants [methodGET] ... [methodOPTIONS]
    are declared in a file that is not part of the sources; they are the
    names of the HTTP methods the public operations are called after. *)
Definition methodGET : string := "GET".
Definition methodPOST : string := "POST".
Definition methodPUT : string := "PUT".
Definition methodDELETE : string := "DELETE".
Definition methodPATCH : string := "PATCH".
Definition methodHEAD : string := "HEAD".
Definition methodOPTIONS : string := "OPTIONS".

Definition isQueryParamMethod (method : string) : bool :=
  String.eqb method methodGET || String.eqb method methodDELETE ||
  String.eqb method methodHEAD || String.eqb method methodOPTIONS.

(** The dynamic values of a [map[string]interface{}] that the model
    covers, and [fmt.Sprint] on them. *)
Inductive Value :=
| VNil
| VBool (b : bool)
| VInt (n : Z)
| VString (s : string).

Definition Sprint (v : Value) : string :=
  match v with
  | VNil => "<nil>"
  | VBool true => "true"
  | VBool false => "false"
  | VInt n => itoa n
  | VString s => s
  end.

(** [net/url.URL]: the package reads and writes [RawQuery] only, the
    other fields are kept together. *)
Record URL := {
  url_parts : string;
  RawQuery : string }.

(** [net/url.Values] and its method [Set]. *)
Abbreviation Values := (gmap string (list string)).

Definition Values_Set (q : Values) (key value : string) : Values :=
  <[key := [value]]> q.

(** A call that ends before the pipeline is entered. *)
Definition early (err : error) : option Result :=
  Some (Build_Result "" (Some err) 0 []).

Section Codec.

(** The library functions the codec calls: [url.Parse], [URL.String],
    [URL.Query] as a function of [RawQuery], [Values.Encode] and
    [json.Marshal]. *)
Variable url_Parse : string → URL + error.
Variable url_String : URL → string.
Variable url_ParseQuery : string → Values.
Variable values_Encode : Values → string.
Variable json_Marshal : gmap string Value → string + error.

(** The order in which a [range] statement visits a map. *)
Variable range : ∀ A : Type, gmap string A → list (string * A).

(** The loop [for key, value := range payload { q.Set(key, fmt.Sprint(value)) }] *)
Definition set_params (q : Values) (payload : gmap string Value) : Values :=
  foldl (λ q kv, Values_Set q kv.1 (Sprint kv.2)) q (range Value payload).

Definition makeRequest (st : Package) (w : World)
    (method description urlStr : string)
    (payload : option (gmap string Value))
    (headers : option (gmap string string)) : Package * option Result :=
  match url_Parse urlStr with
  | inr err => (st, early err)
  | inl u =>
      let u1 :=
        match payload with
        | Some p =>
            if isQueryParamMethod method
            then {| url_parts := url_parts u;
                    RawQuery := values_Encode (set_params (url_ParseQuery (RawQuery u)) p) |}
            else u
        | None => u
        end in
      match payload with
      | Some p =>
          if negb (isQueryParamMethod method) then
            match json_Marshal p with
            | inr err => (st, early err)
            | inl jsonPayload =>
                executeRequest st w method description (url_String u1)
                  (BytesBuffer jsonPayload 0) jsonPayload headers
            end
          else executeRequest st w method description (url_String u1) NilReader "" headers
      | None => executeRequest st w method description (url_String u1) NilReader "" headers
      end
  end.

Definition makeRequestWithString (st : Package) (w : World)
    (method description urlStr payload : string)
    (headers : option (gmap string string)) : Package * option Result :=
  match url_Parse urlStr with
  | inr err => (st, early err)
  | inl u =>
      if negb (isQueryParamMethod method) && negb (String.eqb payload "") then
        let quotedPayload := dquote +:+ payload +:+ dquote in
        executeRequest st w method description (url_String u)
          (BytesBuffer quotedPayload 0) quotedPayload headers
      else executeRequest st w method description (url_String u) NilReader "" headers
  end.

(** The loop [for k, v := range queryParams { payload[k] = v }] on a
    fresh map. *)
Definition to_payload (queryParams : option (gmap string string)) : gmap string Value :=
  foldl (λ p kv, <[kv.1 := VString kv.2]> p) ∅ (range string (default ∅ queryParams)).

Definition MakeGETRequest st w description baseURL queryParams headers :=
  makeRequest st w methodGET description baseURL (Some (to_payload queryParams)) headers.

Definition MakePOSTRequest st w description url payload headers :=
  makeRequest st w methodPOST description url payload headers.

Definition MakePOSTRequestWithString st w description url payload headers :=
  makeRequestWithString st w methodPOST description url payload headers.

Definition MakePUTRequest st w description url payload headers :=
  makeRequest st w methodPUT description url payload headers.

Definition MakePUTRequestWithString st w description url payload headers :=
  makeRequestWithString st w methodPUT description url payload headers.

Definition MakeDELETERequest st w description url queryParams headers :=
  makeRequest st w methodDELETE description url (Some (to_payload queryParams)) headers.

Definition MakePATCHRequest st w description url payload headers :=
  makeRequest st w methodPATCH description url payload headers.

Definition MakePATCHRequestWithString st w description url payload headers :=
  makeRequestWithString st w methodPATCH description url payload headers.

Definition MakeHEADRequest st w description url queryParams headers :=
  makeRequest st w methodHEAD description url (Some (to_payload queryParams)) headers.

Definition MakeOPTIONSRequest st w description url queryParams headers :=
  makeRequest st w methodOPTIONS description url (Some (to_payload queryParams)) headers.

End Codec.

(** ** network.go: MakeXMLPostRequest *)

(** A [map[string]string] argument is a reference: the maps the caller
    holds live in a store, and [headers] is [nil] or an address in it. *)
Definition loc := positive.
Abbreviation Store := (gmap loc (gmap string string)).

Definition xmlContentType : string := "text/xml; charset=UTF-8".

Definition MakeXMLPostRequest (st : Package) (w : World) (h : Store)
    (description urlStr xmlPayload : string) (headers : option loc)
    : Store * Package * option Result :=
  let '(st1, evs) := ensureInitialized st in
  let '(h1, l) :=
    match headers with
    | None => let l := fresh (dom h) in (<[l := ∅]> h, l)
    | Some l => (h, l)
    end in
  let m := default ∅ (h1 !! l) in
  let h2 :=
    match m !! "Content-Type" with
    | Some _ => h1
    | None => <[l := <["Content-Type" := xmlContentType]> m]> h1
    end in
  let body := BytesBuffer xmlPayload 0 in
  let '(st2, r) :=
    executeRequest st1 w methodPOST description urlStr body xmlPayload (h2 !! l) in
  (h2, st2, after evs <$> r).

(** * The vocabulary of the properties *)

(** The header name contains one of the sensitive terms, up to the case
    of letters. *)
Definition sensitive_name (key : string) : Prop :=
  ∃ term, term ∈ sensitiveHeaders ∧ substring_nocase term key.

(** The name is made of ASCII bytes, as a header field name is. *)
Fixpoint ascii_only (s : string) : bool :=
  match s with
  | EmptyString => true
  | String c s' => Nat.ltb (nat_of_ascii c) 128 && ascii_only s'
  end.




(** Two spellings of one header field name: field names do not
    distinguish the case of letters. *)
Definition same_field_name (a b : string) : Prop := ToLower a = ToLower b.

(** Body and error of an attempt as a function of what the transport
    did. *)
Definition outcome (t : Transport) : string * option error :=
  match t with
  | NewRequestError err | DoError err | ReadError _ err => ("", Some err)
  | Response statusCode responseBody =>
      (responseBody,
       if (statusCode <? 200) || (300 <=? statusCode)
       then Some ("received non-2xx response code: " +:+ itoa statusCode)
       else None)
  end.

(** The wait before attempt [i] is not interrupted by the context. *)
Definition passes (w : World) (i : nat) : Prop := i = 0%nat ∨ ctx_done (w i) = None.

(** Attempt [i] fails with an error that [shouldRetry] accepts, and
    the context is not done after it. *)
Definition goes_on (cfg : Config) (w : World) (i : nat) : Prop :=
  ctx_err (w i) = None ∧
  ∃ e, (outcome (transport (w i))).2 = Some e ∧ shouldRetry cfg (Some e) = true.

(** The request every attempt of a call is to send, [wire] being the
    body. *)
Definition the_request (method urlStr : string) (headers : option (gmap string string))
    (wire : option string) : Request :=
  {| req_method := method; req_url := urlStr;
     req_header := default ∅ headers; req_body := wire |}.

(** An event of a call for [method], [urlStr], [headers] with the wire
    body [wire] and the logged payload [payloadStr]. *)
Definition event_of_call (cfg : Config) (method urlStr : string)
    (headers : option (gmap string string)) (wire : option string) (payloadStr : string)
    (ev : Event) : Prop :=
  match ev with
  | Do req => req = the_request method urlStr headers wire
  | LogRequestEv m u _ _ payload =>
      m = method ∧ u = urlStr ∧
      payload = (if LogRequestBody (Logging cfg) then Some payloadStr else None)
  | _ => True
  end.

(** Every request the call hands to the transport satisfies [P]. *)
Definition every_request (P : Request → Prop) (r : Result) : Prop :=
  ∀ req, Do req ∈ res_events r → P req.

(** Every payload the call hands to the logger satisfies [P]. *)
Definition every_logged_payload (P : string → Prop) (r : Result) : Prop :=
  ∀ m u d hs payload, LogRequestEv m u d hs (Some payload) ∈ res_events r → P payload.

(** The methods of the public operations that carry a body, and those
    that carry their payload in the query. *)
Definition body_methods : list string := [methodPOST; methodPUT; methodPATCH].
Definition query_methods : list string :=
  [methodGET; methodDELETE; methodHEAD; methodOPTIONS].

(** The headers a raw-XML call sends, [m] being the caller's map (the
    empty map when the caller passes [nil]). *)
Definition xml_headers (m : gmap string string) : gmap string string :=
  match m !! "Content-Type" with
  | Some _ => m
  | None => <["Content-Type" := xmlContentType]> m
  end.

(** The caller's map behind a [headers] argument. *)
Definition caller_map (h : Store) (headers : option loc) (m : gmap string string) : Prop :=
  match headers with
  | None => m = ∅
  | Some l => h !! l = Some m
  end.

(** The configuration a call runs under. *)
Definition config_in_force (st : Package) : option Config :=
  if isInitialized st then config st else Some (NewConfig (30 * Second)).

(** The encoding the wire body of a string payload is compared with,
    "the JSON string encoding of the payload as a scalar": between two
    quotation marks, the quotation mark, the reverse solidus and the
    control characters (bytes below 32) are escaped, every other byte
    stands for itself (RFC 8259, section 7).  This is no part of the
    package, which never encodes a string payload. *)
Module Json.

Definition hex_digit (n : nat) : ascii :=
  ascii_of_nat (if Nat.ltb n 10 then 48 + n else 87 + n).

Definition plain (c : ascii) : bool :=
  let n := nat_of_ascii c in
  negb (Nat.eqb n 34) && negb (Nat.eqb n 92) && negb (Nat.ltb n 32).

Definition escape_byte (c : ascii) : string :=
  let n := nat_of_ascii c in
  if Nat.eqb n 34 then backslash +:+ dquote
  else if Nat.eqb n 92 then backslash +:+ backslash
  else if Nat.ltb n 32 then
    backslash +:+ "u00" +:+
    String (hex_digit (n / 16)) (String (hex_digit (n mod 16)) EmptyString)
  else String c EmptyString.

Fixpoint escape (s : string) : string :=
  match s with
  | EmptyString => EmptyString
  | String c s' => escape_byte c +:+ escape s'
  end.

Definition encode_string (s : string) : string := dquote +:+ escape s +:+ dquote.

(** No byte of [s] needs an escape. *)
Fixpoint all_plain (s : string) : bool :=
  match s with
  | EmptyString => true
  | String c s' => plain c && all_plain s'
  end.

End Json.

(** ** Concrete configurations and worlds *)

Definition retrying (n : Z) : Config :=
  WithRetry (NewConfig (30 * Second))
    {| MaxRetries := n; RetryDelay := Second; RetryOnStatus := [500; 502; 503; 504] |}.

(** Every attempt is answered by a 503 whose body tells the attempt;
    the context is never done. *)
Definition always_503 : World := λ i,
  {| ctx_done := None;
     transport := Response 503 ("busy " +:+ itoa (Z.of_nat i));
     consumed := 0; elapsed := Second; ctx_err := None |}.

(** The same, the context being done in the wait before attempt 2. *)
Definition done_in_wait : World := λ i,
  {| ctx_done := if decide (i = 2%nat) then Some "context deadline exceeded" else None;
     transport := Response 503 ("busy " +:+ itoa (Z.of_nat i));
     consumed := 0; elapsed := Second; ctx_err := None |}.

(** The first attempt is answered by a 503 and the context is done when
    the attempt returns. *)
Definition done_after_attempt : World := λ i,
  {| ctx_done := None;
     transport := Response 503 "busy";
     consumed := 0; elapsed := 30 * Second;
     ctx_err := Some "context deadline exceeded" |}.


(** Every attempt is answered by a 200 with the body "ok". *)
Definition always_200 : World := λ i,
  {| ctx_done := None; transport := Response 200 "ok";
     consumed := 0; elapsed := Second; ctx_err := None |}.

(** Stand-ins for [net/url], [encoding/json] and the order of [range]
    in concrete calls: the URL is kept whole and has no query of its
    own, a query is written as key=value pairs joined by an ampersand,
    no map is marshalled, and [range] visits a map from its last entry
    to its first. *)
Definition parse_whole (s : string) : URL + error :=
  inl {| url_parts := s; RawQuery := "" |}.

Definition string_whole (u : URL) : string :=
  if String.eqb (RawQuery u) "" then url_parts u
  else url_parts u +:+ "?" +:+ RawQuery u.

Definition no_query (_ : string) : Values := ∅.

Definition encode_pairs (q : Values) : string :=
  String.concat "&"
    ((λ kv : string * list string, kv.1 +:+ "=" +:+ String.concat "," kv.2)
       <$> map_to_list q).

Definition marshal_none (_ : gmap string Value) : string + error :=
  inr "json: unsupported value".

Definition range_reversed (A : Type) (m : gmap string A) : list (string * A) :=
  reverse (map_to_list m).

(** The string payload of the README: an object with one member, the
    name and the value of which stand between quotation marks. *)
Definition readme_payload : string :=
  "{" +:+ dquote +:+ "event" +:+ dquote +:+ ": " +:+
  dquote +:+ "user.created" +:+ dquote +:+ "}".

(** The headers of the requests of a call, in order. *)
Definition wire_headers (r : Result) : list (gmap string string) :=
  omap (λ ev, match ev with Do req => Some (req_header req) | _ => None end) (res_events r).

(** The bodies and the URLs of the requests of a call, in order. *)
Definition wire_bodies (r : Result) : list (option string) :=
  omap (λ ev, match ev with Do req => Some (req_body req) | _ => None end) (res_events r).

Definition wire_urls (r : Result) : list string :=
  omap (λ ev, match ev with Do req => Some (req_url req) | _ => None end) (res_events r).

(** * More of the package *)

(** ** config.go: the other mutators *)

Definition WithTLS (c : Config) (t : TLSConfig) : Config :=
  {| BaseTimeout := BaseTimeout c; TLS := t; Timeouts := Timeouts c;
     Connection := Connection c; Retry := Retry c; Logging := Logging c |}.

Definition WithTimeouts (c : Config) (t : TimeoutConfig) : Config :=
  {| BaseTimeout := BaseTimeout c; TLS := TLS c; Timeouts := t;
     Connection := Connection c; Retry := Retry c; Logging := Logging c |}.

Definition WithConnection (c : Config) (k : ConnectionConfig) : Config :=
  {| BaseTimeout := BaseTimeout c; TLS := TLS c; Timeouts := Timeouts c;
     Connection := k; Retry := Retry c; Logging := Logging c |}.

Definition WithInsecureTLS (c : Config) : Config :=
  WithTLS c {| InsecureSkipVerify := true; RootCAPath := RootCAPath (TLS c);
               CertFile := CertFile (TLS c); KeyFile := KeyFile (TLS c) |}.

(** ** The logger: formatBody *)

Section FormatBody.

(** [json.Unmarshal] into an [interface{}] and [json.Marshal] of the
    value it yields; [None] is an error. *)
Variable JSON : Type.
Variable json_Unmarshal : string → option JSON.
Variable json_Marshal_value : JSON → option string.

Definition formatBody (body : string) : string :=
  if String.eqb body "" then "null"
  else
    let asis := if 1000 <? len body then slice_to body 1000 +:+ "..." else body in
    match json_Unmarshal body with
    | Some jsonObj =>
        match json_Marshal_value jsonObj with
        | Some compactJSON => compactJSON
        | None => asis
        end
    | None => asis
    end.

End FormatBody.

(** * The vocabulary of the further properties *)

(** What [Validate] asks of a configuration. *)
Definition valid (c : Config) : Prop :=
  0 < BaseTimeout c ∧
  0 < DialTimeout (Timeouts c) ∧
  0 < TLSHandshakeTimeout (Timeouts c) ∧
  0 <= MaxIdleConns (Connection c) ∧
  0 <= MaxIdleConnsPerHost (Connection c) ∧
  0 <= MaxRetries (Retry c).

(** The number of attempts the configuration allows, when
    [MaxRetries + 1] does not overflow. *)
Definition retries_fit (cfg : Config) : Prop := 0 <= MaxRetries (Retry cfg) < max_int.

(** A status code of the range 200..299, and a status code as HTTP has
    them, of three digits. *)
Definition success_status (s : Z) : Prop := 200 <= s <= 299.
Definition http_status (s : Z) : Prop := 100 <= s <= 999.

(** The message of the error an attempt returns for a status code
    outside 200..299. *)
Definition status_error (statusCode : Z) : error :=
  "received non-2xx response code: " +:+ itoa statusCode.

(** A byte [fmt.Sprintf] writes for [%d]: a digit or the minus sign. *)
Definition num_char (c : ascii) : bool :=
  let n := nat_of_ascii c in
  (Nat.leb 48 n && Nat.leb n 57) || Nat.eqb n 45.

Fixpoint all_num (s : string) : bool :=
  match s with
  | EmptyString => true
  | String c s' => num_char c && all_num s'
  end.

(** Two platforms that differ at most in how much of the request body
    the transport reads. *)
Definition same_but_consumed (a a' : Attempt) : Prop :=
  ctx_done a = ctx_done a' ∧ transport a = transport a' ∧
  elapsed a = elapsed a' ∧ ctx_err a = ctx_err a'.

(** The retry warnings among the events of a call. *)
Fixpoint count_warnings (evs : list Event) : nat :=
  match evs with
  | [] => 0
  | LogWarningEv _ _ :: evs' => S (count_warnings evs')
  | _ :: evs' => count_warnings evs'
  end.

(** The entries of [logRequest] and [logResponseWithDuration]. *)
Definition gated_entry (ev : Event) : bool :=
  match ev with
  | LogRequestEv _ _ _ _ _ | LogResponseEv _ _ _ _ => true
  | _ => false
  end.

(** A world whose attempts fail with a 503 until attempt [k], which is
    answered by a 200. *)
Definition ok_at (k : nat) : World := λ i,
  {| ctx_done := None;
     transport := if decide (i = k) then Response 200 "done" else Response 503 "busy";
     consumed := 0; elapsed := Second; ctx_err := None |}.

(** Every attempt is answered by the status [s]. *)
Definition always_status (s : Z) : World := λ i,
  {| ctx_done := None; transport := Response s "body";
     consumed := 0; elapsed := Second; ctx_err := None |}.

(** The world [always_503] with a transport that reads seven bytes of
    the body at every attempt. *)
Definition reading_503 : World := λ i,
  {| ctx_done := None;
     transport := Response 503 ("busy " +:+ itoa (Z.of_nat i));
     consumed := 7; elapsed := Second; ctx_err := None |}.

(** A stand-in for [encoding/json] that marshals every map to the same
    object, and one for which only the text [{}] is JSON. *)
Definition marshal_fixed (_ : gmap string Value) : string + error :=
  inl "{}".

Definition unmarshal_braces (s : string) : option unit :=
  if String.eqb s "{}" then Some tt else None.

Definition marshal_braces (_ : unit) : option string := Some "{}".

(** * Properties *)

(** ** Go strings *)

Section StringFacts.

Lemma append_nil (b : string) : "" +:+ b = b.
Proof. reflexivity. Qed.

Lemma append_cons (c : ascii) (a b : string) :
  String c a +:+ b = String c (a +:+ b).
Proof. reflexivity. Qed.

Lemma append_empty_r (s : string) : s +:+ "" = s.
Proof.
  induction s as [|c s IH]; [done |].
  by rewrite append_cons, IH.
Qed.

Lemma append_assoc (a b c : string) : (a +:+ b) +:+ c = a +:+ (b +:+ c).
Proof.
  induction a as [|x a IH]; [done |].
  by rewrite !append_cons, IH.
Qed.

Lemma append_length (a b : string) :
  String.length (a +:+ b) = (String.length a + String.length b)%nat.
Proof.
  induction a as [|x a IH]; [done |].
  rewrite append_cons. simpl. by rewrite IH.
Qed.

Lemma HasPrefix_spec (s p : string) :
  HasPrefix s p = true ↔ ∃ r, s = p +:+ r.
Proof.
  revert s. induction p as [|c p IH]; intros s.
  - split; [intros _; by exists s | by destruct s].
  - destruct s as [|d s]; simpl.
    + split; [done | intros [r Hr]; discriminate Hr].
    + destruct (Ascii.eqb_spec c d) as [->|Hcd].
      * rewrite IH. split; intros [r Hr]; exists r.
        -- by rewrite append_cons, Hr.
        -- rewrite append_cons in Hr. by injection Hr.
      * split; [done |].
        intros [r Hr]. rewrite append_cons in Hr. injection Hr as ? ?. congruence.
Qed.

Lemma Contains_cons (c : ascii) (s sub : string) :
  Contains (String c s) sub = HasPrefix (String c s) sub || Contains s sub.
Proof. reflexivity. Qed.

Lemma Contains_spec (s sub : string) :
  Contains s sub = true ↔ substring_of sub s.
Proof.
  unfold substring_of. induction s as [|c s IH].
  - change (Contains "" sub) with (HasPrefix "" sub || false).
    rewrite orb_false_r, HasPrefix_spec. split.
    + intros [r Hr]. by exists "", r.
    + intros [l [r Hlr]]. destruct l; [by exists r | discriminate Hlr].
  - rewrite Contains_cons, orb_true_iff, HasPrefix_spec, IH. split.
    + intros [[r Hr] | [l [r Hlr]]].
      * by exists "", r.
      * exists (String c l), r. by rewrite append_cons, Hlr.
    + intros [l [r Hlr]]. destruct l as [|x l].
      * left. by exists r.
      * right. rewrite append_cons in Hlr. injection Hlr as _ Hs. by exists l, r.
Qed.

Lemma ToLower_app (a b : string) : ToLower (a +:+ b) = ToLower a +:+ ToLower b.
Proof.
  induction a as [|c a IH]; [done |].
  rewrite append_cons. simpl. by rewrite IH.
Qed.

Lemma ToLower_app_inv (s a b : string) :
  ToLower s = a +:+ b → ∃ a' b', s = a' +:+ b' ∧ ToLower a' = a ∧ ToLower b' = b.
Proof.
  revert s. induction a as [|c a IH]; intros s H.
  - by exists "", s.
  - rewrite append_cons in H.
    destruct s as [|d s]; simpl in H; [discriminate H |].
    injection H as Hc Hs. destruct (IH _ Hs) as (a' & b' & -> & Ha & Hb).
    exists (String d a'), b'. simpl. by rewrite Hc, Ha.
Qed.

(** Looking for a lower-case term in [ToLower key] is looking for the
    term in [key] up to the case of letters. *)
Lemma Contains_ToLower (key term : string) :
  ToLower term = term →
  Contains (ToLower key) term = true ↔ substring_nocase term key.
Proof.
  intros Hterm. rewrite Contains_spec. unfold substring_of, substring_nocase.
  rewrite Hterm. split.
  - intros (l & r & H).
    destruct (ToLower_app_inv _ _ _ H) as (l' & mr & -> & Hl & Hmr).
    destruct (ToLower_app_inv _ _ _ Hmr) as (m & r' & -> & Hm & Hr).
    by exists l', m, r'.
  - intros (l & m & r & -> & Hm).
    exists (ToLower l), (ToLower r). by rewrite !ToLower_app, Hm.
Qed.

Lemma substring_all (t : string) : String.substring 0 (String.length t) t = t.
Proof. induction t as [|x t IHt]; simpl; [done | by rewrite IHt]. Qed.

Lemma drop_bytes_0 (s : string) : drop_bytes 0 s = s.
Proof. unfold drop_bytes. rewrite Nat.sub_0_r. apply substring_all. Qed.

Lemma slice_to_split (s : string) (n : nat) :
  (n ≤ String.length s)%nat →
  s = slice_to s n +:+ drop_bytes n s ∧ String.length (slice_to s n) = n.
Proof.
  revert s. induction n as [|n IH]; intros s Hn.
  - rewrite drop_bytes_0. unfold slice_to. by destruct s.
  - destruct s as [|c s]; simpl in Hn; [lia |].
    destruct (IH s ltac:(lia)) as [H1 H2].
    unfold slice_to, drop_bytes in *. simpl. rewrite append_cons.
    split; [by rewrite <- H1 | by rewrite H2].
Qed.

End StringFacts.

(** ** The retry decision *)

Lemma status_loop_spec (codes : list Z) (errStr : string) :
  status_loop codes errStr = true ↔
  ∃ N, N ∈ codes ∧ substring_of ("response code: " +:+ itoa N) errStr.
Proof.
  induction codes as [|c codes IH]; simpl.
  - split; [done | intros (N & HN & _); by apply not_elem_of_nil in HN].
  - destruct (Contains errStr ("response code: " +:+ itoa c)) eqn:Hc.
    + split; [intros _ | done].
      exists c. split; [apply list_elem_of_here | by apply Contains_spec].
    + rewrite IH. split.
      * intros (N & HN & HS). exists N. split; [by apply list_elem_of_further | done].
      * intros (N & HN & HS). apply elem_of_cons in HN as [-> | HN].
        -- apply Contains_spec in HS. congruence.
        -- by exists N.
Qed.

(** C2. [shouldRetry] answers true exactly for a non-nil error whose
    message contains "response code: N" for a status N of
    [RetryOnStatus], or contains one of the literal substrings
    "connection", "timeout", "EOF"; the nil error is never retried. *)
Theorem shouldRetry_iff (cfg : Config) :
  shouldRetry cfg None = false ∧
  ∀ err : option error,
    shouldRetry cfg err = true ↔
    ∃ msg, err = Some msg ∧
      ((∃ N, N ∈ RetryOnStatus (Retry cfg) ∧
             substring_of ("response code: " +:+ itoa N) msg)
       ∨ substring_of "connection" msg
       ∨ substring_of "timeout" msg
       ∨ substring_of "EOF" msg).
Proof.
  split; [done |].
  intros [msg|]; simpl.
  - destruct (status_loop (RetryOnStatus (Retry cfg)) msg) eqn:Hs.
    + split; [intros _ | done].
      exists msg. split; [done |]. left. by apply status_loop_spec.
    + rewrite !orb_true_iff, !Contains_spec. split.
      * intros H. exists msg. split; [done |]. right. tauto.
      * intros (m & [= <-] & [H | H]); [| tauto].
        apply status_loop_spec in H. congruence.
  - split; [done | by intros (m & H & _)].
Qed.

(** A 429 is not retried under the default status set and is retried
    once 429 is put into the set. *)
Example shouldRetry_429 :
  shouldRetry (NewConfig (30 * Second)) (Some "received non-2xx response code: 429") = false ∧
  shouldRetry (WithRetry (NewConfig (30 * Second))
                 {| MaxRetries := 1; RetryDelay := Second; RetryOnStatus := [429] |})
    (Some "received non-2xx response code: 429") = true.
Proof. by vm_compute. Qed.

(** ** The header sanitizer *)

Lemma sensitiveHeaders_lower :
  Forall (λ term, ToLower term = term) sensitiveHeaders.
Proof. repeat constructor. Qed.

Lemma sanitize_loop_hit (terms : list string) (lowerKey value : string) :
  (∃ term, term ∈ terms ∧ Contains lowerKey term = true) →
  sanitize_loop terms lowerKey value =
    if 10 <? len value then slice_to value 10 +:+ "..." else "***".
Proof.
  induction terms as [|t terms IH]; intros (term & Hin & Hc).
  - by apply not_elem_of_nil in Hin.
  - simpl. destruct (Contains lowerKey t) eqn:Ht; [done |].
    apply IH. apply elem_of_cons in Hin as [-> | Hin]; [congruence | by exists term].
Qed.

Lemma sanitize_loop_miss (terms : list string) (lowerKey value : string) :
  (∀ term, term ∈ terms → Contains lowerKey term = false) →
  sanitize_loop terms lowerKey value = value.
Proof.
  induction terms as [|t terms IH]; intros H; [done |].
  simpl. rewrite (H t) by apply list_elem_of_here.
  apply IH. intros term Hin. apply H. by apply list_elem_of_further.
Qed.

(** A header with an ASCII name that holds no sensitive term is logged
    as it is. *)
Lemma sanitize_plain (key value : string) :
  ascii_only key = true → ¬ sensitive_name key → sanitizeHeaderValue key value = value.
Proof.
  intros _ Hno. apply sanitize_loop_miss. intros term Hin.
  destruct (Contains (ToLower key) term) eqn:Hc; [| done].
  exfalso. apply Hno. exists term. split; [done |].
  apply Contains_ToLower; [| done].
  by apply (proj1 (Forall_forall _ _) sensitiveHeaders_lower).
Qed.




(** The value of an [Authorization] header as it is logged: ten bytes of
    it and the ellipsis. *)
Example sanitize_bearer :
  sanitizeHeaderValue "Authorization" "Bearer abcdef1234567890" = "Bearer abc...".
Proof. by vm_compute. Qed.

(** The two revisions of the sanitizer on a short sensitive value: the
    current one hides it, the superseded one shows it. *)
Example sanitize_short_value :
  sanitizeHeaderValue "X-API-Key" "s3cret" = "***" ∧
  Superseded.sanitizeHeaderValue "X-API-Key" "s3cret" = "s3cret...".
Proof. by vm_compute. Qed.

(** With [SanitizeHeaders] the logged map holds the sanitized value of
    every header, without it the value itself. *)
Lemma formatHeaders_lookup (headers : gmap string string) (sanitize : bool) (key : string) :
  formatHeaders headers sanitize !! key =
    (λ value, if sanitize then sanitizeHeaderValue key value else value) <$> headers !! key.
Proof.
  unfold formatHeaders. rewrite map_lookup_imap.
  by destruct (headers !! key).
Qed.

(** ** One attempt *)

Lemma executeRequestOnce_outcome cfg a method description urlStr body payloadStr headers :
  let r := executeRequestOnce cfg a method description urlStr body payloadStr headers in
  once_body r = (outcome (transport a)).1 ∧ once_err r = (outcome (transport a)).2.
Proof.
  unfold executeRequestOnce, outcome.
  destruct (transport a) as [e | e | s e | s b]; simpl; try done.
  by destruct ((s <? 200) || (300 <=? s)).
Qed.

(** ** The attempt loop *)

Section Loop.

Variable cfg : Config.
Variable w : World.
Variable maxAttempts : Z.
Variables method description urlStr payloadStr : string.
Variable headers : option (gmap string string).

Local Abbreviation loop := (attempt_loop cfg w maxAttempts method description urlStr payloadStr headers).

Lemma wait_passes (i : nat) :
  passes w i → (if Nat.ltb 0 i then ctx_done (w i) else None) = None.
Proof. intros [-> | H]; [done | by destruct (Nat.ltb 0 i)]. Qed.

Lemma loop_step fuel i body rb le n evs :
  passes w i → goes_on cfg w i →
  ∃ body' evs',
    loop (S fuel) i body rb le n evs =
    loop fuel (S i) body' (outcome (transport (w i))).1 (outcome (transport (w i))).2
      (S n) evs'.
Proof.
  intros Hp (Hctx & e & He & Hre). simpl.
  rewrite (wait_passes _ Hp).
  set (b1 := if Nat.ltb 0 i then reset_body body payloadStr else body).
  destruct (executeRequestOnce_outcome cfg (w i) method description urlStr b1
              payloadStr headers) as [Hb Herr].
  rewrite Hb, Herr, He, Hctx, Hre. simpl. eauto.
Qed.

(** [k] attempts that go on take the loop [k] iterations further. *)
Lemma loop_prefix k fuel i body rb le n evs :
  (∀ j, (i ≤ j < i + S k)%nat → passes w j ∧ goes_on cfg w j) →
  ∃ body' evs',
    loop (S k + fuel)%nat i body rb le n evs =
    loop fuel (i + S k)%nat body'
      (outcome (transport (w (i + k)%nat))).1 (outcome (transport (w (i + k)%nat))).2
      (n + S k)%nat evs'.
Proof.
  revert i body rb le n evs. induction k as [|k IH]; intros i body rb le n evs H.
  - destruct (H i ltac:(lia)) as [Hp Hg].
    destruct (loop_step fuel i body rb le n evs Hp Hg) as (b' & evs' & Heq).
    exists b', evs'. change (1 + fuel)%nat with (S fuel). rewrite Heq.
    by replace (i + 1)%nat with (S i) by lia;
       replace (i + 0)%nat with i by lia;
       replace (n + 1)%nat with (S n) by lia.
  - destruct (H i ltac:(lia)) as [Hp Hg].
    destruct (loop_step (S k + fuel)%nat i body rb le n evs Hp Hg) as (b1 & evs1 & Heq).
    change (S (S k) + fuel)%nat with (S (S k + fuel)%nat). rewrite Heq.
    destruct (IH (S i) b1 (outcome (transport (w i))).1 (outcome (transport (w i))).2
                (S n) evs1) as (b' & evs' & Heq').
    { intros j Hj. apply H. lia. }
    exists b', evs'. rewrite Heq'.
    by replace (S i + S k)%nat with (i + S (S k))%nat by lia;
       replace (S i + k)%nat with (i + S k)%nat by lia;
       replace (S n + S k)%nat with (n + S (S k))%nat by lia.
Qed.

End Loop.

Lemma wrap_small (z : Z) : int_ok z → wrap z = z.
Proof.
  unfold int_ok, wrap, min_int, max_int. intros H.
  rewrite Z.mod_small; lia.
Qed.

Section Call.

Variable cfg : Config.
Variable w : World.
Variables method description urlStr : string.
Variable body : Reader.
Variable payloadStr : string.
Variable headers : option (gmap string string).

Local Abbreviation call :=
  (executeRequestWithRetry cfg w method description urlStr body payloadStr headers).
Local Abbreviation loop :=
  (attempt_loop cfg w (wrap (MaxRetries (Retry cfg) + 1))
     method description urlStr payloadStr headers).

(** After [k] attempts that go on, the call is at iteration [k] of the
    loop with [k] attempts made. *)
Lemma call_reaches (k fuel : nat) :
  Z.to_nat (wrap (MaxRetries (Retry cfg) + 1)) = (k + fuel)%nat →
  (∀ j, (j < k)%nat → passes w j ∧ goes_on cfg w j) →
  ∃ body' rb le evs, call = loop fuel k body' rb le k evs ∧
    (∀ k', k = S k' → rb = (outcome (transport (w k'))).1 ∧
                       le = (outcome (transport (w k'))).2).
Proof.
  intros Hfuel H. unfold executeRequestWithRetry. rewrite Hfuel.
  destruct k as [|k].
  - exists body, "", None, []. split; [done | intros k' Hk; discriminate Hk].
  - destruct (loop_prefix cfg w (wrap (MaxRetries (Retry cfg) + 1))
                method description urlStr payloadStr headers
                k fuel 0 body "" None 0 []) as (b' & evs' & Heq).
    { intros j Hj. apply H. lia. }
    exists b', (outcome (transport (w k))).1, (outcome (transport (w k))).2, evs'.
    split; [exact Heq |].
    by intros k' [= <-].
Qed.

(** The [select] before a retry takes [<-ctx.Done()]. *)
Lemma loop_interrupted fuel i b rb le n evs (e : error) :
  (0 < i)%nat → ctx_done (w i) = Some e →
  loop (S fuel) i b rb le n evs = Build_Result "" (Some e) n evs.
Proof.
  intros Hi Hd. simpl.
  destruct (Nat.ltb_spec 0 i) as [_ | Hle]; [| lia].
  by rewrite Hd.
Qed.

(** [ctx.Err()] is not nil after an attempt. *)
Lemma loop_expired fuel i b rb le n evs (e : error) :
  passes w i → ctx_err (w i) = Some e →
  ∃ evs',
    loop (S fuel) i b rb le n evs =
    Build_Result (outcome (transport (w i))).1 (outcome (transport (w i))).2 (S n) evs'.
Proof.
  intros Hp He. simpl. rewrite (wait_passes _ _ Hp).
  set (b1 := if Nat.ltb 0 i then reset_body b payloadStr else b).
  destruct (executeRequestOnce_outcome cfg (w i) method description urlStr b1
              payloadStr headers) as [Hb Herr].
  rewrite Hb, Herr, He.
  rewrite (bool_decide_eq_true_2 (Some e ≠ None)) by done.
  rewrite orb_true_r. eauto.
Qed.

(** With [N] retries configured, [N + 1] not overflowing, a context
    that is never done and attempts that all fail with an error
    [shouldRetry] accepts, the call makes [N + 1] attempts and returns
    body and error of attempt [N]. *)
Lemma retry_exhausts (N : Z) :
  MaxRetries (Retry cfg) = N →
  0 <= N < max_int →
  (∀ i, ctx_done (w i) = None ∧ ctx_err (w i) = None) →
  (∀ i, ∃ e, (outcome (transport (w i))).2 = Some e ∧
             shouldRetry cfg (Some e) = true) →
  Z.of_nat (res_attempts call) = N + 1 ∧
  res_body call = (outcome (transport (w (Z.to_nat N)))).1 ∧
  res_err call = (outcome (transport (w (Z.to_nat N)))).2.
Proof.
  intros HN Hrange Hctx Hfail.
  destruct (call_reaches (S (Z.to_nat N)) 0) as (b' & rb & le & evs & Heq & Hlast).
  - rewrite HN, wrap_small by (unfold int_ok, min_int, max_int in *; lia). lia.
  - intros j _. split; [right; apply Hctx | split; [apply Hctx | apply Hfail]].
  - destruct (Hlast _ eq_refl) as [-> ->]. rewrite Heq. simpl.
    split; [lia | done].
Qed.

(** The loop ends with attempt [i] when the attempt does not go on or
    when no iteration is left after it: the outcome of the attempt is
    what the call returns. *)
Lemma loop_last fuel i b rb le n evs :
  passes w i →
  ¬ goes_on cfg w i ∨ fuel = 0%nat →
  ∃ evs',
    loop (S fuel) i b rb le n evs =
    Build_Result (outcome (transport (w i))).1 (outcome (transport (w i))).2 (S n) evs'.
Proof.
  intros Hp Hfinal. simpl. rewrite (wait_passes _ _ Hp).
  set (b1 := if Nat.ltb 0 i then reset_body b payloadStr else b).
  destruct (executeRequestOnce_outcome cfg (w i) method description urlStr b1
              payloadStr headers) as [Hb Herr].
  rewrite Hb, Herr.
  destruct (bool_decide _ || bool_decide _) eqn:Hstop; [eauto |].
  destruct (negb (shouldRetry cfg _)) eqn:Hno; [eauto |].
  destruct Hfinal as [Hfinal | ->]; [| simpl; eauto].
  exfalso. apply Hfinal.
  apply orb_false_iff in Hstop as [He Hc].
  apply bool_decide_eq_false in He, Hc. apply negb_false_iff in Hno.
  split.
  - destruct (ctx_err (w i)); [by destruct Hc | done].
  - destruct (outcome (transport (w i))).2 as [e|]; [by exists e | done].
Qed.

Lemma call_returns_last (k : nat) :
  Z.of_nat k < wrap (MaxRetries (Retry cfg) + 1) →
  (∀ j, (j < k)%nat → passes w j ∧ goes_on cfg w j) →
  passes w k →
  ¬ goes_on cfg w k ∨ Z.of_nat k + 1 = wrap (MaxRetries (Retry cfg) + 1) →
  res_body call = (outcome (transport (w k))).1 ∧
  res_err call = (outcome (transport (w k))).2 ∧
  res_attempts call = S k.
Proof.
  intros Hk Hprev Hp Hfinal.
  set (mx := wrap (MaxRetries (Retry cfg) + 1)) in *.
  destruct (call_reaches k (S (Z.to_nat mx - S k))) as (b' & rb & le & evs & Heq & _);
    [fold mx; lia | done |].
  rewrite Heq.
  destruct (loop_last (Z.to_nat mx - S k) k b' rb le k evs Hp) as [evs' ->]; [| done].
  destruct Hfinal as [Hfinal | Hfinal]; [by left | right; lia].
Qed.

(** C3. Whenever the context is done the call ends, whatever the
    number of retries left and whatever [shouldRetry] says: taken in
    the wait before attempt [k], it ends the call with the empty body
    and the error of the context, attempt [k] not being made; found
    after attempt [k], it ends the call with body and error of that
    attempt, no attempt following. *)
Theorem deadline_terminal (k : nat) :
  Z.of_nat k < wrap (MaxRetries (Retry cfg) + 1) →
  (∀ j, (j < k)%nat → passes w j ∧ goes_on cfg w j) →
  (∀ e, (0 < k)%nat → ctx_done (w k) = Some e →
        res_body call = "" ∧ res_err call = Some e ∧ res_attempts call = k) ∧
  (∀ e, passes w k → ctx_err (w k) = Some e →
        res_body call = (outcome (transport (w k))).1 ∧
        res_err call = (outcome (transport (w k))).2 ∧
        res_attempts call = S k).
Proof.
  intros Hk Hprev.
  set (mx := wrap (MaxRetries (Retry cfg) + 1)) in *.
  destruct (call_reaches k (S (Z.to_nat mx - S k))) as (b' & rb & le & evs & Heq & _);
    [fold mx; lia | done |].
  rewrite Heq. split.
  - intros e Hpos Hd. by rewrite (loop_interrupted _ _ _ _ _ _ _ e).
  - intros e Hp He.
    destruct (loop_expired (Z.to_nat mx - S k) k b' rb le k evs e Hp He) as [evs' ->].
    done.
Qed.

End Call.

(** C4. When the round trip and the read of the response body succeed,
    a status code in 200..299 yields the body and no error, any other
    status code yields the body together with the error
    "received non-2xx response code: " followed by the status code; and
    when the call ends with such an attempt (the error is not one to
    retry, or no retry is left, or the context is done), the caller of
    the call receives that body and that error. *)
Theorem executeRequestOnce_status cfg (w : World) method description urlStr body payloadStr
    headers (k : nat) (statusCode : Z) (responseBody : string) :
  transport (w k) = Response statusCode responseBody →
  let r := executeRequestOnce cfg (w k) method description urlStr body payloadStr headers in
  let msg := "received non-2xx response code: " +:+ itoa statusCode in
  let call := executeRequestWithRetry cfg w method description urlStr body payloadStr headers in
  once_body r = responseBody ∧
  (200 <= statusCode <= 299 → once_err r = None) ∧
  (¬ 200 <= statusCode <= 299 → once_err r = Some msg) ∧
  (¬ 200 <= statusCode <= 299 →
   Z.of_nat k < wrap (MaxRetries (Retry cfg) + 1) →
   (∀ j, (j < k)%nat → passes w j ∧ goes_on cfg w j) →
   passes w k →
   shouldRetry cfg (Some msg) = false ∨
   Z.of_nat k + 1 = wrap (MaxRetries (Retry cfg) + 1) ∨
   ctx_err (w k) ≠ None →
   res_body call = responseBody ∧ res_err call = Some msg ∧ res_attempts call = S k).
Proof.
  intros Ht r msg call.
  assert (Hout : outcome (transport (w k)) =
                 (responseBody, if (statusCode <? 200) || (300 <=? statusCode)
                                then Some msg else None)).
  { by rewrite Ht. }
  destruct (executeRequestOnce_outcome cfg (w k) method description urlStr body
              payloadStr headers) as [Hb He].
  fold r in Hb, He. rewrite Hout in Hb, He. simpl in Hb, He.
  assert (H2xx : 200 <= statusCode <= 299 ↔
                 (statusCode <? 200) || (300 <=? statusCode) = false).
  { rewrite orb_false_iff, Z.ltb_ge, Z.leb_gt. lia. }
  split; [exact Hb |]. split; [| split].
  - intros H. apply H2xx in H. by rewrite H in He.
  - intros H. destruct ((statusCode <? 200) || (300 <=? statusCode)); [done |].
    exfalso. by apply H, H2xx.
  - intros H Hk Hprev Hp Hfinal.
    assert (Hnon : (statusCode <? 200) || (300 <=? statusCode) = true).
    { destruct ((statusCode <? 200) || (300 <=? statusCode)); [done |].
      exfalso. by apply H, H2xx. }
    rewrite Hnon in Hout.
    destruct (call_returns_last cfg w method description urlStr body payloadStr headers
                k Hk Hprev Hp) as (Hrb & Hre & Hn).
    + destruct Hfinal as [Hno | [Hlast | Hctx]]; [left | by right | left].
      * intros (_ & e & He' & Hre'). rewrite Hout in He'. simpl in He'. congruence.
      * intros (Hc & _). done.
    + rewrite Hout in Hrb, Hre. done.
Qed.

Lemma executeRequestOnce_status_witness :
  let w : World := λ i,
    {| ctx_done := None; transport := Response 404 "not found";
       consumed := 0; elapsed := 0; ctx_err := None |} in
  let r := executeRequestOnce (retrying 3) (w 0%nat) methodGET "lookup"
             "https://api.example.com/users/7" NilReader "" None in
  let call := executeRequestWithRetry (retrying 3) w methodGET "lookup"
                "https://api.example.com/users/7" NilReader "" None in
  (once_body r = "not found" ∧
   once_err r = Some "received non-2xx response code: 404") ∧
  (res_body call = "not found" ∧
   res_err call = Some "received non-2xx response code: 404" ∧
   res_attempts call = 1%nat).
Proof.
  intros w r call.
  destruct (executeRequestOnce_status (retrying 3) w methodGET "lookup"
              "https://api.example.com/users/7" NilReader "" None 0 404 "not found" eq_refl)
    as (Hb & _ & He & Hcall).
  split.
  - split; [exact Hb | apply He; lia].
  - apply Hcall.
    + lia.
    + by vm_compute.
    + intros j Hj. lia.
    + by left.
    + left. by vm_compute.
Defined.

(** *** Concrete calls *)

Example retry_exhausts_3 :
  let r := executeRequestWithRetry (retrying 3) always_503 methodGET "list users"
             "https://api.example.com/users" NilReader "" None in
  Z.of_nat (res_attempts r) = 3 + 1 ∧
  res_body r = "busy 3" ∧
  res_err r = Some "received non-2xx response code: 503".
Proof.
  apply (retry_exhausts (retrying 3) always_503 methodGET "list users"
           "https://api.example.com/users" NilReader "" None 3).
  - reflexivity.
  - unfold max_int. lia.
  - by intros i.
  - intros i. eexists. split; [reflexivity | by vm_compute].
Qed.

(** C1, at maxRetries = 2^63 - 1, a value [Validate] accepts:
    [MaxRetries + 1] wraps to -2^63, the loop body is never entered and
    the call returns the empty body and the nil error with no attempt
    made, where N + 1 attempts and the error of the last one are
    expected. *)
Theorem retry_overflow (w : World) (method description urlStr : string)
    (body : Reader) (payloadStr : string) (headers : option (gmap string string)) :
  Validate (retrying max_int) = None ∧
  wrap (MaxRetries (Retry (retrying max_int)) + 1) = min_int ∧
  executeRequestWithRetry (retrying max_int) w method description urlStr
    body payloadStr headers = Build_Result "" None 0 [].
Proof. split; [| split]; reflexivity. Qed.

Lemma deadline_terminal_witness :
  let r := executeRequestWithRetry (retrying 5) done_in_wait methodGET "list users"
             "https://api.example.com/users" NilReader "" None in
  let r' := executeRequestWithRetry (retrying 5) done_after_attempt methodGET "list users"
              "https://api.example.com/users" NilReader "" None in
  (res_body r = "" ∧ res_err r = Some "context deadline exceeded" ∧
   res_attempts r = 2%nat) ∧
  (res_body r' = "busy" ∧ res_err r' = Some "received non-2xx response code: 503" ∧
   res_attempts r' = 1%nat).
Proof.
  split.
  - apply (deadline_terminal (retrying 5) done_in_wait methodGET "list users"
             "https://api.example.com/users" NilReader "" None 2).
    + by vm_compute.
    + intros j Hj. split.
      * right. destruct j as [|[|j]]; [done | done | lia].
      * split; [done |]. eexists. split; [reflexivity | by vm_compute].
    + lia.
    + reflexivity.
  - apply (proj2 (deadline_terminal (retrying 5) done_after_attempt methodGET "list users"
                    "https://api.example.com/users" NilReader "" None 0
                    ltac:(by vm_compute) ltac:(intros j Hj; lia))
             "context deadline exceeded").
    + by left.
    + reflexivity.
Defined.

(** C3 as stated fails: the context is done when the first attempt
    returns, and the call returns the error of the attempt, which is not
    the error of the context. *)
Lemma deadline_error_not_returned :
  let r := executeRequestWithRetry (retrying 5) done_after_attempt methodGET "list users"
             "https://api.example.com/users" NilReader "" None in
  ctx_err (done_after_attempt 0%nat) = Some "context deadline exceeded" ∧
  res_body r = "busy" ∧
  res_err r = Some "received non-2xx response code: 503" ∧
  res_err r ≠ ctx_err (done_after_attempt 0%nat) ∧
  res_attempts r = 1%nat.
Proof. by vm_compute. Qed.

(** ** What a call puts on the wire and into the log *)

Lemma reset_body_advance (n : nat) (b : Reader) (p : string) :
  reset_body (advance n b) p = reset_body b p.
Proof. by destruct b. Qed.

Lemma reset_body_idem (b : Reader) (p : string) :
  reset_body (reset_body b p) p = reset_body b p.
Proof. by destruct b. Qed.

Section Trace.

Variable cfg : Config.
Variable w : World.
Variable maxAttempts : Z.
Variables method description urlStr payloadStr : string.
Variable headers : option (gmap string string).
Variable wire : option string.

Local Abbreviation ok := (event_of_call cfg method urlStr headers wire payloadStr).

Lemma logRequest_ok : Forall ok (logRequest cfg method urlStr description headers payloadStr).
Proof.
  unfold logRequest. destruct (negb (Enabled (Logging cfg))); [constructor |].
  repeat constructor.
Qed.

Lemma logResponse_ok response statusCode duration :
  Forall ok (logResponseWithDuration cfg description response statusCode duration).
Proof.
  unfold logResponseWithDuration. destruct (negb (Enabled (Logging cfg))); [constructor |].
  by repeat constructor.
Qed.

Lemma once_ok (a : Attempt) (body : Reader) :
  unread body = wire →
  let r := executeRequestOnce cfg a method description urlStr body payloadStr headers in
  Forall ok (once_events r) ∧
  reset_body (once_reader r) payloadStr = reset_body body payloadStr.
Proof.
  intros Hw. unfold executeRequestOnce.
  assert (Hdo : ok (Do {| req_method := method; req_url := urlStr;
                          req_header := default ∅ headers; req_body := unread body |})).
  { simpl. unfold the_request. by rewrite Hw. }
  destruct (transport a) as [e | e | s e | s b]; simpl.
  - by split.
  - split; [| apply reset_body_advance].
    apply Forall_app. split; [apply logRequest_ok | by repeat constructor].
  - split; [| apply reset_body_advance].
    apply Forall_app. split; [apply logRequest_ok | by repeat constructor].
  - assert (Hall : Forall ok
              (logRequest cfg method urlStr description headers payloadStr ++
               [Do {| req_method := method; req_url := urlStr;
                      req_header := default ∅ headers; req_body := unread body |}] ++
               logResponseWithDuration cfg description b s (elapsed a))).
    { apply Forall_app. split; [apply logRequest_ok |].
      apply Forall_cons. split; [done | apply logResponse_ok]. }
    destruct ((s <? 200) || (300 <=? s)); simpl;
      (split; [exact Hall | apply reset_body_advance]).
Qed.

(** Every attempt sends the same body: the one the reader holds at the
    first attempt, which is also what the reset before a retry yields. *)
Lemma loop_ok fuel i body rb le n evs :
  (i = 0%nat → unread body = wire) →
  unread (reset_body body payloadStr) = wire →
  Forall ok evs →
  Forall ok (res_events (attempt_loop cfg w maxAttempts method description urlStr
                           payloadStr headers fuel i body rb le n evs)).
Proof.
  revert i body rb le n evs.
  induction fuel as [|fuel IH]; intros i body rb le n evs H0 Hreset Hevs; [done |].
  simpl.
  destruct (if Nat.ltb 0 i then ctx_done (w i) else None); [done |].
  set (body1 := if Nat.ltb 0 i then reset_body body payloadStr else body).
  set (evs1 := if Nat.ltb 0 i then evs ++ _ else evs).
  assert (Hb1 : unread body1 = wire).
  { subst body1. destruct (Nat.ltb_spec 0 i); [done | apply H0; lia]. }
  assert (Hr1 : reset_body body1 payloadStr = reset_body body payloadStr).
  { subst body1. destruct (Nat.ltb 0 i); [apply reset_body_idem | done]. }
  assert (Hevs1 : Forall ok evs1).
  { subst evs1. destruct (Nat.ltb 0 i); [| done].
    apply Forall_app. split; [done | by repeat constructor]. }
  destruct (once_ok (w i) body1 Hb1) as [Honce Hreader].
  set (r := executeRequestOnce cfg (w i) method description urlStr body1 payloadStr headers)
    in *.
  assert (Hevs2 : Forall ok (evs1 ++ once_events r)) by (by apply Forall_app).
  destruct (bool_decide (once_err r = None) || bool_decide (ctx_err (w i) ≠ None));
    [done |].
  destruct (negb (shouldRetry cfg (once_err r))); [done |].
  apply IH; [intros Hi; discriminate Hi | by rewrite Hreader, Hr1 | done].
Qed.

End Trace.

Lemma executeRequestWithRetry_ok cfg w method description urlStr body payloadStr headers wire :
  unread body = wire →
  unread (reset_body body payloadStr) = wire →
  Forall (event_of_call cfg method urlStr headers wire payloadStr)
    (res_events (executeRequestWithRetry cfg w method description urlStr body
                   payloadStr headers)).
Proof. intros H0 Hr. unfold executeRequestWithRetry. by apply loop_ok. Qed.

(** ** Initialization *)

Lemma ensureInitialized_spec (st : Package) :
  ensureInitialized st =
    (if isInitialized st then st
     else {| config := Some (NewConfig (30 * Second)); isInitialized := true |}, []).
Proof. unfold ensureInitialized. by destruct (isInitialized st). Qed.

Lemma after_nil (r : Result) : after [] r = r.
Proof. by destruct r. Qed.

Lemma executeRequest_spec st w method description urlStr body payloadStr headers :
  executeRequest st w method description urlStr body payloadStr headers =
    ((ensureInitialized st).1,
     (λ cfg, executeRequestWithRetry cfg w method description urlStr body payloadStr headers)
       <$> config_in_force st).
Proof.
  unfold executeRequest, config_in_force. rewrite ensureInitialized_spec. simpl.
  destruct (isInitialized st); simpl; [| by rewrite after_nil].
  destruct (config st); simpl; [by rewrite after_nil | done].
Qed.

(** A call on a package that was never initialized, or was initialized
    by [Init], returns. *)
Lemma executeRequest_returns st w method description urlStr body payloadStr headers :
  isInitialized st = false ∨ is_Some (config st) →
  is_Some (executeRequest st w method description urlStr body payloadStr headers).2.
Proof.
  intros H. rewrite executeRequest_spec. unfold config_in_force. simpl.
  destruct (isInitialized st); [| by eexists].
  destruct H as [H | [cfg ->]]; [done | by eexists].
Qed.

Lemma executeRequest_ok st w method description urlStr body payloadStr headers wire st' r :
  unread body = wire →
  unread (reset_body body payloadStr) = wire →
  executeRequest st w method description urlStr body payloadStr headers = (st', Some r) →
  ∃ cfg, config_in_force st = Some cfg ∧
         Forall (event_of_call cfg method urlStr headers wire payloadStr) (res_events r).
Proof.
  intros H0 Hr. rewrite executeRequest_spec. intros [= _ Heq].
  destruct (config_in_force st) as [cfg|]; [| done].
  exists cfg. split; [done |]. injection Heq as <-.
  by apply executeRequestWithRetry_ok.
Qed.

(** ** JSON strings *)

Lemma json_escape_byte_plain (c : ascii) : Json.plain c = true → Json.escape_byte c = String c "".
Proof.
  unfold Json.plain, Json.escape_byte. intros H.
  apply andb_true_iff in H as [H H3]. apply andb_true_iff in H as [H1 H2].
  apply negb_true_iff in H1, H2, H3. by rewrite H1, H2, H3.
Qed.

Lemma json_escape_byte_long (c : ascii) :
  Json.plain c = false → (2 ≤ String.length (Json.escape_byte c))%nat.
Proof.
  unfold Json.plain, Json.escape_byte. intros H.
  destruct (Nat.eqb (nat_of_ascii c) 34); [by vm_compute |].
  destruct (Nat.eqb (nat_of_ascii c) 92); [by vm_compute |].
  destruct (Nat.ltb (nat_of_ascii c) 32); [| done].
  rewrite !append_length. simpl. lia.
Qed.

Lemma json_escape_length (s : string) : (String.length s ≤ String.length (Json.escape s))%nat.
Proof.
  induction s as [|c s IH]; [done |].
  simpl. rewrite append_length.
  destruct (Json.plain c) eqn:Hc.
  - rewrite (json_escape_byte_plain c Hc). simpl. lia.
  - pose proof (json_escape_byte_long c Hc). lia.
Qed.

Lemma json_escape_id (s : string) : Json.escape s = s ↔ Json.all_plain s = true.
Proof.
  induction s as [|c s IH]; [done |].
  simpl. destruct (Json.plain c) eqn:Hc; simpl.
  - rewrite (json_escape_byte_plain c Hc), append_cons, append_nil, <- IH.
    split; [by intros [= ->] | by intros ->].
  - split; [| done]. intros H.
    apply (f_equal String.length) in H. rewrite append_length in H. simpl in H.
    pose proof (json_escape_byte_long c Hc). pose proof (json_escape_length s). lia.
Qed.

Lemma append_inj_r (x y d : string) : x +:+ d = y +:+ d → x = y.
Proof.
  revert y. induction x as [|c x IH]; intros y H.
  - destruct y as [|c' y]; [done |].
    apply (f_equal String.length) in H. rewrite append_nil, append_length in H.
    simpl in H. lia.
  - destruct y as [|c' y].
    + apply (f_equal String.length) in H. rewrite append_nil, append_length in H.
      simpl in H. lia.
    + rewrite !append_cons in H. injection H as -> H. by rewrite (IH y H).
Qed.

(** Putting a payload between two quotation marks gives its JSON string
    encoding exactly when no byte of the payload needs an escape. *)
Lemma quoted_is_json (payload : string) :
  dquote +:+ payload +:+ dquote = Json.encode_string payload ↔
  Json.all_plain payload = true.
Proof.
  unfold Json.encode_string. rewrite <- json_escape_id. unfold dquote.
  rewrite !append_cons, !append_nil. split.
  - intros [= H]. symmetry. by apply append_inj_r in H.
  - by intros ->.
Qed.

Lemma unread_fresh_buffer (d : string) : unread (BytesBuffer d 0) = Some d.
Proof. unfold unread. by rewrite drop_bytes_0. Qed.

(** A buffer that is not a seeker is recreated from [payloadStr]. *)
Lemma unread_reset_buffer (d : string) (off : nat) (payloadStr : string) :
  unread (reset_body (BytesBuffer d off) payloadStr) = Some payloadStr.
Proof. unfold reset_body, unread. by rewrite drop_bytes_0. Qed.

Lemma every_request_of_call cfg method urlStr headers wire payloadStr (r : Result) :
  Forall (event_of_call cfg method urlStr headers wire payloadStr) (res_events r) →
  every_request (λ req, req = the_request method urlStr headers wire) r ∧
  every_logged_payload (λ payload, payload = payloadStr) r.
Proof.
  intros H. rewrite Forall_forall in H. split.
  - intros req Hin. exact (H _ Hin).
  - intros m u d hs payload Hin. destruct (H _ Hin) as (_ & _ & Hp).
    destruct (LogRequestBody (Logging cfg)); congruence.
Qed.

Lemma body_method_not_query (method : string) :
  method ∈ body_methods → isQueryParamMethod method = false.
Proof.
  unfold body_methods. intros H.
  repeat (apply elem_of_cons in H as [-> | H]; [reflexivity |]).
  by apply not_elem_of_nil in H.
Qed.

Lemma query_method_is_query (method : string) :
  method ∈ query_methods → isQueryParamMethod method = true.
Proof.
  unfold query_methods. intros H.
  repeat (apply elem_of_cons in H as [-> | H]; [reflexivity |]).
  by apply not_elem_of_nil in H.
Qed.

(** ** The string variant *)

Section StringVariant.

Variable url_Parse : string → URL + error.
Variable url_String : URL → string.

Local Abbreviation makeRequestWithString' := (makeRequestWithString url_Parse url_String).

(** C5. For a non-empty string payload and a method that carries a
    body, the call is the pipeline run on the payload put between two
    quotation marks, byte for byte, and every request of it carries that
    body; this body is the JSON string encoding of the payload exactly
    when the payload has no quotation mark, no backslash and no control
    character. *)
Theorem string_payload_quoted st w method description urlStr payload headers (u : URL) :
  method ∈ body_methods →
  url_Parse urlStr = inl u →
  payload ≠ "" →
  let quoted := dquote +:+ payload +:+ dquote in
  let call := makeRequestWithString' st w method description urlStr payload headers in
  call = executeRequest st w method description (url_String u)
           (BytesBuffer quoted 0) quoted headers ∧
  (∀ st' r, call = (st', Some r) →
     every_request (λ req, req_body req = Some quoted) r ∧
     every_logged_payload (λ logged, logged = quoted) r) ∧
  (quoted = Json.encode_string payload ↔ Json.all_plain payload = true).
Proof.
  intros Hm Hu Hp quoted call.
  assert (Hcall : call = executeRequest st w method description (url_String u)
                           (BytesBuffer quoted 0) quoted headers).
  { subst call. unfold makeRequestWithString. rewrite Hu, (body_method_not_query _ Hm).
    by destruct (String.eqb_spec payload ""). }
  split; [exact Hcall |]. split; [| apply quoted_is_json].
  intros st' r Hr. rewrite Hcall in Hr.
  destruct (executeRequest_ok _ _ _ _ _ _ _ _ (Some quoted) _ _
              (unread_fresh_buffer quoted) (unread_reset_buffer quoted 0 quoted) Hr)
    as (cfg & _ & Hall).
  destruct (every_request_of_call _ _ _ _ _ _ _ Hall) as [Hreq Hlog].
  split; [| exact Hlog].
  intros req Hin. by rewrite (Hreq req Hin).
Qed.

(** C10. For the empty string payload and a method that carries a
    body, the call is the pipeline run with the nil reader and the empty
    logged payload: no request of it has a body. *)
Theorem empty_string_payload_no_body st w method description urlStr headers (u : URL) :
  method ∈ body_methods →
  url_Parse urlStr = inl u →
  let call := makeRequestWithString' st w method description urlStr "" headers in
  call = executeRequest st w method description (url_String u) NilReader "" headers ∧
  (∀ st' r, call = (st', Some r) →
     every_request (λ req, req_body req = None) r ∧
     every_logged_payload (λ logged, logged = "") r).
Proof.
  intros Hm Hu call.
  assert (Hcall : call = executeRequest st w method description (url_String u)
                           NilReader "" headers).
  { subst call. unfold makeRequestWithString.
    by rewrite Hu, (body_method_not_query _ Hm). }
  split; [exact Hcall |].
  intros st' r Hr. rewrite Hcall in Hr.
  destruct (executeRequest_ok st w method description (url_String u) NilReader ""
              headers None st' r eq_refl eq_refl Hr) as (cfg & _ & Hall).
  destruct (every_request_of_call _ _ _ _ _ _ _ Hall) as [Hreq Hlog].
  split; [| exact Hlog].
  intros req Hin. by rewrite (Hreq req Hin).
Qed.

End StringVariant.

(** ** Query parameters *)

Section SetLoop.

Context {A B : Type}.
Variable f : A → B.

Local Abbreviation set_all := (foldl (λ (q : gmap string B) (kv : string * A), <[kv.1 := f kv.2]> q)).

Lemma set_all_other (l : list (string * A)) (q : gmap string B) (k : string) :
  k ∉ l.*1 → set_all q l !! k = q !! k.
Proof.
  revert q. induction l as [|[k' v'] l IH]; intros q Hk; [done |].
  simpl in *. apply not_elem_of_cons in Hk as [Hne Hk].
  rewrite IH by done. by rewrite lookup_insert_ne.
Qed.

Lemma set_all_key (l : list (string * A)) (q : gmap string B) (k : string) (v : A) :
  NoDup l.*1 → (k, v) ∈ l → set_all q l !! k = Some (f v).
Proof.
  revert q. induction l as [|[k' v'] l IH]; intros q Hnd Hin.
  - by apply not_elem_of_nil in Hin.
  - simpl in *. apply NoDup_cons in Hnd as [Hk' Hnd].
    apply elem_of_cons in Hin as [[= -> ->] | Hin].
    + rewrite set_all_other by done. apply lookup_insert_eq.
    + by apply IH.
Qed.

(** A loop that sets every entry of a map, whatever the order it visits
    them in. *)
Lemma set_all_range (range : list (string * A)) (m : gmap string A)
    (q : gmap string B) (k : string) :
  range ≡ₚ map_to_list m →
  set_all q range !! k =
    match m !! k with
    | Some v => Some (f v)
    | None => q !! k
    end.
Proof.
  intros Hperm.
  assert (Hnd : NoDup range.*1).
  { rewrite Hperm. apply NoDup_fst_map_to_list. }
  destruct (m !! k) as [v|] eqn:Hk.
  - apply set_all_key; [done |]. rewrite Hperm. by apply elem_of_map_to_list.
  - apply set_all_other. intros Hin.
    apply list_elem_of_fmap in Hin as ([k' v] & -> & Hin).
    rewrite Hperm in Hin. apply elem_of_map_to_list in Hin. simpl in *. congruence.
Qed.

End SetLoop.

Section QueryVariant.

Variable url_Parse : string → URL + error.
Variable url_String : URL → string.
Variable url_ParseQuery : string → Values.
Variable values_Encode : Values → string.
Variable json_Marshal : gmap string Value → string + error.
Variable range : ∀ A : Type, gmap string A → list (string * A).

(** A [range] statement visits every entry of the map once, in an order
    of its own. *)
Hypothesis range_perm : ∀ (A : Type) (m : gmap string A), range A m ≡ₚ map_to_list m.

Local Abbreviation makeRequest' :=
  (makeRequest url_Parse url_String url_ParseQuery values_Encode json_Marshal range).

Lemma set_params_lookup (q : Values) (payload : gmap string Value) (k : string) :
  set_params range q payload !! k =
    match payload !! k with
    | Some v => Some [Sprint v]
    | None => q !! k
    end.
Proof.
  unfold set_params, Values_Set.
  apply (set_all_range (λ v, [Sprint v])), range_perm.
Qed.

Lemma to_payload_lookup (queryParams : option (gmap string string)) (k : string) :
  to_payload range queryParams !! k = VString <$> (default ∅ queryParams !! k).
Proof.
  unfold to_payload.
  rewrite (set_all_range VString _ (default ∅ queryParams)) by apply range_perm.
  by destruct (default ∅ queryParams !! k).
Qed.

(** C7. For a method without body and a structured payload, the request
    URL is the parsed URL with the query made of the parameters the URL
    had and of one parameter per payload entry, the value being the
    entry's value as [fmt.Sprint] writes it, whatever the order the map
    is visited in; the call is the pipeline run with the nil reader, and
    no request of it has a body. *)
Theorem query_params_set st w method description urlStr
    (payload : gmap string Value) headers (u : URL) :
  method ∈ query_methods →
  url_Parse urlStr = inl u →
  let q := set_params range (url_ParseQuery (RawQuery u)) payload in
  let target := url_String {| url_parts := url_parts u; RawQuery := values_Encode q |} in
  let call := makeRequest' st w method description urlStr (Some payload) headers in
  (∀ k v, payload !! k = Some v → q !! k = Some [Sprint v]) ∧
  (∀ k, payload !! k = None → q !! k = url_ParseQuery (RawQuery u) !! k) ∧
  call = executeRequest st w method description target NilReader "" headers ∧
  (∀ st' r, call = (st', Some r) →
     every_request (λ req, req_url req = target ∧ req_body req = None) r).
Proof.
  intros Hm Hu q target call.
  assert (Hcall : call = executeRequest st w method description target NilReader "" headers).
  { subst call. unfold makeRequest. by rewrite Hu, (query_method_is_query _ Hm). }
  split; [| split; [| split; [exact Hcall |]]].
  - intros k v Hk. subst q. by rewrite set_params_lookup, Hk.
  - intros k Hk. subst q. by rewrite set_params_lookup, Hk.
  - intros st' r Hr. rewrite Hcall in Hr.
    destruct (executeRequest_ok st w method description target NilReader ""
                headers None st' r eq_refl eq_refl Hr) as (cfg & _ & Hall).
    destruct (every_request_of_call _ _ _ _ _ _ _ Hall) as [Hreq _].
    intros req Hin. by rewrite (Hreq req Hin).
Qed.

End QueryVariant.

(** ** The raw-XML operation *)

Lemma executeRequest_initialized st w method description urlStr body payloadStr headers :
  executeRequest (ensureInitialized st).1 w method description urlStr body payloadStr headers =
  executeRequest st w method description urlStr body payloadStr headers.
Proof.
  rewrite !executeRequest_spec, !ensureInitialized_spec. unfold config_in_force.
  by destruct (isInitialized st) eqn:Hi; simpl; rewrite ?Hi.
Qed.

Lemma xml_headers_lookup (m : gmap string string) (k : string) :
  xml_headers m !! k =
    if decide (k = "Content-Type")
    then Some (default xmlContentType (m !! "Content-Type"))
    else m !! k.
Proof.
  unfold xml_headers. destruct (m !! "Content-Type") as [v|] eqn:Hm.
  - case_decide; [by subst | done].
  - case_decide; [subst; apply lookup_insert_eq | by rewrite lookup_insert_ne].
Qed.

(** What the operation does to the store and which headers it hands to
    the pipeline. *)
Lemma MakeXMLPostRequest_spec st w (h : Store) description urlStr xmlPayload headers
    (m : gmap string string) :
  caller_map h headers m →
  let res := MakeXMLPostRequest st w h description urlStr xmlPayload headers in
  let l := default (fresh (dom h)) headers in
  res.1.1 = (if decide (is_Some headers ∧ is_Some (m !! "Content-Type")) then h
             else <[l := xml_headers m]> h) ∧
  (res.1.2, res.2) =
    executeRequest st w methodPOST description urlStr
      (BytesBuffer xmlPayload 0) xmlPayload (Some (xml_headers m)).
Proof.
  intros Hm res l. subst res. unfold MakeXMLPostRequest.
  rewrite ensureInitialized_spec.
  set (st1 := if isInitialized st then st else _).
  assert (Hst1 : st1 = (ensureInitialized st).1) by (by rewrite ensureInitialized_spec).
  assert (Hrun : ∀ (h2 : Store) hs,
            h2 !! l = Some hs → hs = xml_headers m →
            (let '(st2, r) := executeRequest st1 w methodPOST description urlStr
                                (BytesBuffer xmlPayload 0) xmlPayload (h2 !! l) in
             (h2, st2, after [] <$> r)) =
            (h2, (executeRequest st w methodPOST description urlStr
                    (BytesBuffer xmlPayload 0) xmlPayload (Some (xml_headers m))).1,
                 (executeRequest st w methodPOST description urlStr
                    (BytesBuffer xmlPayload 0) xmlPayload (Some (xml_headers m))).2)).
  { intros h2 hs -> ->. rewrite Hst1, executeRequest_initialized.
    destruct (executeRequest _ _ _ _ _ _ _ _) as [st2 [r|]]; simpl; [| done].
    by rewrite after_nil. }
  destruct headers as [l0|]; simpl in Hm, l; subst l.
  - rewrite Hm. simpl. unfold xml_headers in *.
    destruct (m !! "Content-Type") as [v|] eqn:Hct.
    + rewrite (Hrun h m Hm eq_refl). simpl.
      rewrite ?decide_True by (split; by eexists).
      split; [done | by destruct (executeRequest _ _ _ _ _ _ _ _)].
    + rewrite (Hrun _ _ (lookup_insert_eq _ _ _) eq_refl). simpl.
      rewrite ?decide_False by (intros [_ [? ?]]; done).
      split; [done | by destruct (executeRequest _ _ _ _ _ _ _ _)].
  - subst m. rewrite lookup_insert_eq. simpl. unfold xml_headers in *.
    rewrite lookup_empty.
    rewrite (Hrun _ _ (lookup_insert_eq _ _ _) eq_refl). simpl.
    rewrite ?decide_False by (intros [[? ?] _]; done).
    rewrite insert_insert_eq.
    split; [done | by destruct (executeRequest _ _ _ _ _ _ _ _)].
Qed.

(** C6. The raw-XML operation is the pipeline run with method POST on a
    buffer holding the payload byte for byte, the payload being also the
    logged string, and with the caller's headers, to which
    Content-Type: text/xml; charset=UTF-8 is added exactly when they
    have no key spelled Content-Type: every request of it carries the
    payload as its body. *)
Theorem xml_post_raw st w (h : Store) description urlStr xmlPayload headers
    (m : gmap string string) :
  caller_map h headers m →
  let res := MakeXMLPostRequest st w h description urlStr xmlPayload headers in
  (res.1.2, res.2) =
    executeRequest st w methodPOST description urlStr
      (BytesBuffer xmlPayload 0) xmlPayload (Some (xml_headers m)) ∧
  (is_Some (m !! "Content-Type") → xml_headers m = m) ∧
  (m !! "Content-Type" = None →
     xml_headers m = <["Content-Type" := "text/xml; charset=UTF-8"]> m) ∧
  (∀ r, res.2 = Some r →
     every_request
       (λ req, req = the_request methodPOST urlStr (Some (xml_headers m)) (Some xmlPayload)) r ∧
     every_logged_payload (λ logged, logged = xmlPayload) r).
Proof.
  intros Hm res.
  destruct (MakeXMLPostRequest_spec st w h description urlStr xmlPayload headers m Hm)
    as [_ Hrun].
  fold res in Hrun. split; [exact Hrun |].
  split; [| split].
  - intros [v Hv]. unfold xml_headers. by rewrite Hv.
  - intros Hv. unfold xml_headers. by rewrite Hv.
  - intros r Hr. rewrite Hr in Hrun. symmetry in Hrun.
    destruct (executeRequest_ok _ _ _ _ _ _ _ _ (Some xmlPayload) _ _
                (unread_fresh_buffer xmlPayload)
                (unread_reset_buffer xmlPayload 0 xmlPayload) Hrun) as (cfg & _ & Hall).
    exact (every_request_of_call _ _ _ _ _ _ _ Hall).
Qed.

(** C9. When the caller passes a map that has no key Content-Type, the
    operation writes Content-Type: text/xml; charset=UTF-8 into that
    very map: after the call the caller's map holds the new entry and
    every other entry as before, and no other map of the store is
    touched. *)
Theorem xml_post_mutates_headers st w (h : Store) description urlStr xmlPayload
    (l : loc) (m : gmap string string) :
  h !! l = Some m →
  m !! "Content-Type" = None →
  let h' := (MakeXMLPostRequest st w h description urlStr xmlPayload (Some l)).1.1 in
  h' !! l = Some (<["Content-Type" := "text/xml; charset=UTF-8"]> m) ∧
  (∀ m', h' !! l = Some m' →
     m' !! "Content-Type" = Some "text/xml; charset=UTF-8" ∧
     ∀ k, k ≠ "Content-Type" → m' !! k = m !! k) ∧
  (∀ l', l' ≠ l → h' !! l' = h !! l').
Proof.
  intros Hl Hct h'.
  destruct (MakeXMLPostRequest_spec st w h description urlStr xmlPayload (Some l) m Hl)
    as [Hstore _].
  fold h' in Hstore. simpl in Hstore.
  rewrite decide_False in Hstore by (rewrite Hct; intros [_ [? ?]]; done).
  assert (Hx : xml_headers m = <["Content-Type" := "text/xml; charset=UTF-8"]> m).
  { unfold xml_headers. by rewrite Hct. }
  rewrite Hx in Hstore. rewrite Hstore. split; [apply lookup_insert_eq |].
  split.
  - rewrite lookup_insert_eq. intros m' [= <-].
    split; [apply lookup_insert_eq |].
    intros k Hk. by rewrite lookup_insert_ne.
  - intros l' Hl'. by rewrite lookup_insert_ne.
Qed.

(** ** Concrete calls of the codec *)

Lemma range_reversed_perm (A : Type) (m : gmap string A) :
  range_reversed A m ≡ₚ map_to_list m.
Proof. apply reverse_Permutation. Qed.

Lemma string_payload_quoted_witness :
  let quoted := dquote +:+ "hello" +:+ dquote in
  let call := makeRequestWithString parse_whole string_whole uninitialized always_200
                methodPOST "send" "https://api.example.com/webhook" "hello" None in
  (wire_bodies <$> call.2 = Some [Some quoted]) ∧
  (∀ st' r, call = (st', Some r) →
     every_request (λ req, req_body req = Some quoted) r ∧
     every_logged_payload (λ logged, logged = quoted) r) ∧
  quoted = Json.encode_string "hello".
Proof.
  intros quoted call.
  destruct (string_payload_quoted parse_whole string_whole uninitialized always_200
              methodPOST "send" "https://api.example.com/webhook" "hello" None
              {| url_parts := "https://api.example.com/webhook"; RawQuery := "" |})
    as (_ & Hreq & Hjson).
  - apply list_elem_of_here.
  - reflexivity.
  - discriminate.
  - split; [by vm_compute |]. split; [exact Hreq |].
    apply Hjson. by vm_compute.
Defined.

(** C5 as stated fails on the string payload of the README: the body on
    the wire is the payload between two quotation marks, the quotation
    marks of the payload standing as they are, which is not the JSON
    string encoding of the payload. *)
Lemma string_payload_not_json :
  let quoted := dquote +:+ readme_payload +:+ dquote in
  let call := makeRequestWithString parse_whole string_whole uninitialized always_200
                methodPOST "send" "https://api.example.com/webhook" readme_payload None in
  readme_payload ≠ "" ∧
  wire_bodies <$> call.2 = Some [Some quoted] ∧
  quoted ≠ Json.encode_string readme_payload.
Proof. split; [| split]; by vm_compute. Qed.

Lemma empty_string_payload_no_body_witness :
  let call := makeRequestWithString parse_whole string_whole uninitialized always_200
                methodPUT "touch" "https://api.example.com/items/7" "" None in
  (wire_bodies <$> call.2 = Some [None]) ∧
  (∀ st' r, call = (st', Some r) →
     every_request (λ req, req_body req = None) r ∧
     every_logged_payload (λ logged, logged = "") r).
Proof.
  intros call.
  destruct (empty_string_payload_no_body parse_whole string_whole uninitialized always_200
              methodPUT "touch" "https://api.example.com/items/7" None
              {| url_parts := "https://api.example.com/items/7"; RawQuery := "" |})
    as (_ & Hreq).
  - apply list_elem_of_further, list_elem_of_here.
  - reflexivity.
  - split; [by vm_compute | exact Hreq].
Defined.

Lemma query_params_set_witness :
  let payload : gmap string Value := {[ "page" := VString "1"; "limit" := VInt 10 ]} in
  let q := set_params range_reversed ∅ payload in
  let call := makeRequest parse_whole string_whole no_query encode_pairs marshal_none
                range_reversed uninitialized always_200 methodGET "list users"
                "https://api.example.com/users" (Some payload) None in
  q !! "page" = Some ["1"] ∧ q !! "limit" = Some ["10"] ∧
  wire_urls <$> call.2 = Some ["https://api.example.com/users?limit=10&page=1"] ∧
  (∀ st' r, call = (st', Some r) →
     every_request
       (λ req, req_url req = "https://api.example.com/users?limit=10&page=1" ∧
               req_body req = None) r).
Proof.
  intros payload q call.
  destruct (query_params_set parse_whole string_whole no_query encode_pairs marshal_none
              range_reversed range_reversed_perm uninitialized always_200 methodGET
              "list users" "https://api.example.com/users" payload None
              {| url_parts := "https://api.example.com/users"; RawQuery := "" |})
    as (Hq & _ & _ & Hreq).
  - apply list_elem_of_here.
  - reflexivity.
  - split; [exact (Hq "page" (VString "1") eq_refl) |].
    split; [exact (Hq "limit" (VInt 10) eq_refl) |].
    split; [by vm_compute | exact Hreq].
Defined.

(** The public GET operation on the query parameters of the README. *)
Example MakeGETRequest_users :
  let call := MakeGETRequest parse_whole string_whole no_query encode_pairs marshal_none
                range_reversed uninitialized always_200 "Get Users"
                "https://api.example.com/users"
                (Some {[ "page" := "1"; "limit" := "10" ]})
                (Some {[ "Accept" := "application/json" ]}) in
  wire_urls <$> call.2 = Some ["https://api.example.com/users?limit=10&page=1"] ∧
  wire_bodies <$> call.2 = Some [None].
Proof. by vm_compute. Qed.

Lemma xml_post_raw_witness :
  let envelope := "<soap:Envelope><soap:Body/></soap:Envelope>" in
  let h : Store := {[ 1%positive := {[ "SOAPAction" := "urn:ping" ]} ]} in
  let m : gmap string string := {[ "SOAPAction" := "urn:ping" ]} in
  let res := MakeXMLPostRequest uninitialized always_200 h "ping"
               "https://soap.example.com/service" envelope (Some 1%positive) in
  wire_bodies <$> res.2 = Some [Some envelope] ∧
  (∀ r, res.2 = Some r →
     every_request
       (λ req, req = the_request methodPOST "https://soap.example.com/service"
                       (Some (xml_headers m)) (Some envelope)) r ∧
     every_logged_payload (λ logged, logged = envelope) r) ∧
  xml_headers m = <["Content-Type" := "text/xml; charset=UTF-8"]> m.
Proof.
  intros envelope h m res.
  destruct (xml_post_raw uninitialized always_200 h "ping"
              "https://soap.example.com/service" envelope (Some 1%positive) m)
    as (_ & _ & Hadd & Hreq).
  - reflexivity.
  - split; [by vm_compute |]. split; [exact Hreq |].
    apply Hadd. reflexivity.
Defined.

(** A caller that sets its own Content-Type keeps it. *)
Example xml_post_keeps_content_type :
  let m : gmap string string := {[ "Content-Type" := "application/soap+xml" ]} in
  xml_headers m = m.
Proof. by vm_compute. Qed.

(** The key is looked up as it is spelled: a caller's [content-type]
    does not keep the operation from adding [Content-Type]. *)
Example xml_post_other_spelling :
  let m : gmap string string := {[ "content-type" := "application/soap+xml" ]} in
  xml_headers m !! "Content-Type" = Some "text/xml; charset=UTF-8" ∧
  xml_headers m !! "content-type" = Some "application/soap+xml".
Proof. by vm_compute. Qed.

(** C6 as stated fails for a caller that supplies the header under
    another spelling of its name: the operation adds its own
    Content-Type all the same, and the request carries both. *)
Lemma xml_post_adds_second_content_type :
  let m : gmap string string := {[ "content-type" := "application/soap+xml" ]} in
  let h : Store := {[ 1%positive := m ]} in
  let res := MakeXMLPostRequest uninitialized always_200 h "ping"
               "https://soap.example.com/service" "<ping/>" (Some 1%positive) in
  m !! "content-type" = Some "application/soap+xml" ∧
  same_field_name "content-type" "Content-Type" ∧
  (fmap (λ hs : gmap string string, (hs !! "Content-Type", hs !! "content-type"))
     ∘ wire_headers) <$> res.2 =
    Some [(Some "text/xml; charset=UTF-8", Some "application/soap+xml")].
Proof. by vm_compute. Qed.

Lemma xml_post_mutates_headers_witness :
  let m : gmap string string := {[ "SOAPAction" := "urn:ping" ]} in
  let h : Store := {[ 1%positive := m; 2%positive := {[ "Accept" := "text/xml" ]} ]} in
  let h' := (MakeXMLPostRequest uninitialized always_200 h "ping"
               "https://soap.example.com/service" "<ping/>" (Some 1%positive)).1.1 in
  h' !! 1%positive = Some (<["Content-Type" := "text/xml; charset=UTF-8"]> m) ∧
  h' !! 2%positive = h !! 2%positive.
Proof.
  intros m h h'.
  destruct (xml_post_mutates_headers uninitialized always_200 h "ping"
              "https://soap.example.com/service" "<ping/>" 1%positive m)
    as (Hnew & _ & Hframe).
  - reflexivity.
  - reflexivity.
  - split; [exact Hnew | by apply Hframe].
Defined.

(** * Further properties *)

(** ** Configuration and initialization *)

Lemma Validate_iff (c : Config) : Validate c = None ↔ valid c.
Proof.
  unfold Validate, valid.
  destruct (Z.leb_spec (BaseTimeout c) 0) as [H1 | H1].
  { split; [done |]. intros (H & _). destruct (proj1 (Z.lt_nge _ _) H). assumption. }
  destruct (Z.leb_spec (DialTimeout (Timeouts c)) 0) as [H2 | H2].
  { split; [done |]. intros (_ & H & _). destruct (proj1 (Z.lt_nge _ _) H). assumption. }
  destruct (Z.leb_spec (TLSHandshakeTimeout (Timeouts c)) 0) as [H3 | H3].
  { split; [done |]. intros (_ & _ & H & _). destruct (proj1 (Z.lt_nge _ _) H). assumption. }
  destruct (Z.ltb_spec (MaxIdleConns (Connection c)) 0) as [H4 | H4].
  { split; [done |]. intros (_ & _ & _ & H & _). destruct (proj1 (Z.le_ngt _ _) H). assumption. }
  destruct (Z.ltb_spec (MaxIdleConnsPerHost (Connection c)) 0) as [H5 | H5].
  { split; [done |]. intros (_ & _ & _ & _ & H & _). destruct (proj1 (Z.le_ngt _ _) H). assumption. }
  destruct (Z.ltb_spec (MaxRetries (Retry c)) 0) as [H6 | H6].
  { split; [done |]. intros (_ & _ & _ & _ & _ & H). destruct (proj1 (Z.le_ngt _ _) H). assumption. }
  by split.
Qed.

(** X1. [Init] installs a configuration exactly when it is valid: then
    the package holds that configuration and is initialized; otherwise
    [Init] returns an error that starts with "invalid configuration: "
    and leaves the package as it was, a configuration installed before
    staying in force. *)
Theorem Init_installs_valid (cfg : Config) (st : Package) :
  ((Init cfg st).2 = None ↔ valid cfg) ∧
  (valid cfg →
     (Init cfg st).1 = {| config := Some cfg; isInitialized := true |}) ∧
  (¬ valid cfg →
     (Init cfg st).1 = st ∧
     ∃ rule, (Init cfg st).2 = Some ("invalid configuration: " +:+ rule)).
Proof.
  unfold Init. rewrite <- Validate_iff.
  destruct (Validate cfg) as [rule|]; simpl.
  - split; [done |]. split; [done |]. intros _. split; [done | by exists rule].
  - split; [done |]. split; [done |]. by intros [].
Qed.

(** X3. A request never replaces a configuration that [Init] installed:
    after a successful [Init] every request runs under that
    configuration and leaves the package variables as they are; on a
    package that was never initialized the request runs under
    [NewConfig] of 30 seconds and installs it. *)
Theorem executeRequest_keeps_config (cfg : Config) (st : Package) (w : World)
    (method description urlStr : string) (body : Reader) (payloadStr : string)
    (headers : option (gmap string string)) :
  (valid cfg →
     executeRequest (Init cfg st).1 w method description urlStr body payloadStr headers =
       ((Init cfg st).1,
        Some (executeRequestWithRetry cfg w method description urlStr body
                payloadStr headers))) ∧
  executeRequest uninitialized w method description urlStr body payloadStr headers =
    ({| config := Some (NewConfig (30 * Second)); isInitialized := true |},
     Some (executeRequestWithRetry (NewConfig (30 * Second)) w method description urlStr
             body payloadStr headers)).
Proof.
  split.
  - intros Hv. destruct (Init_installs_valid cfg st) as (_ & Hst & _).
    rewrite (Hst Hv), executeRequest_spec, ensureInitialized_spec. done.
  - by rewrite executeRequest_spec, ensureInitialized_spec.
Qed.

Lemma executeRequest_keeps_config_witness :
  executeRequest (Init (retrying 3) uninitialized).1 always_200 methodGET "list users"
    "https://api.example.com/users" NilReader "" None =
  ((Init (retrying 3) uninitialized).1,
   Some (executeRequestWithRetry (retrying 3) always_200 methodGET "list users"
           "https://api.example.com/users" NilReader "" None)).
Proof.
  apply (executeRequest_keeps_config (retrying 3) uninitialized always_200 methodGET
           "list users" "https://api.example.com/users" NilReader "" None).
  by repeat split.
Defined.

(** ** Invariants of the attempt loop *)

Lemma count_warnings_app (a b : list Event) :
  count_warnings (a ++ b) = (count_warnings a + count_warnings b)%nat.
Proof.
  induction a as [|ev a IH]; [done |].
  destruct ev; simpl; by rewrite IH.
Qed.

Lemma once_no_warning cfg a method description urlStr body payloadStr headers :
  count_warnings
    (once_events (executeRequestOnce cfg a method description urlStr body payloadStr headers))
  = 0%nat.
Proof.
  unfold executeRequestOnce, logRequest, logResponseWithDuration.
  destruct (transport a) as [e | e | s e | s b];
    destruct (negb (Enabled (Logging cfg))); simpl; try done;
    by destruct ((s <? 200) || (300 <=? s)).
Qed.

Lemma once_silent cfg a method description urlStr body payloadStr headers :
  Enabled (Logging cfg) = false →
  Forall (λ ev, gated_entry ev = false)
    (once_events (executeRequestOnce cfg a method description urlStr body payloadStr headers)).
Proof.
  intros Hoff. unfold executeRequestOnce, logRequest, logResponseWithDuration.
  rewrite Hoff. simpl.
  destruct (transport a) as [e | e | s e | s b]; simpl; try by repeat constructor.
  destruct ((s <? 200) || (300 <=? s)); simpl; by repeat constructor.
Qed.

Section LoopFacts.

Variable cfg : Config.
Variable w : World.
Variable maxAttempts : Z.
Variables method description urlStr payloadStr : string.
Variable headers : option (gmap string string).

Local Abbreviation loop :=
  (attempt_loop cfg w maxAttempts method description urlStr payloadStr headers).

(** One iteration of the loop, the two tests after the attempt taken
    together. *)
Lemma loop_unfold fuel i body rb le n evs :
  loop (S fuel) i body rb le n evs =
  match (if Nat.ltb 0 i then ctx_done (w i) else None) with
  | Some ctxErr => Build_Result "" (Some ctxErr) n evs
  | None =>
      let body1 := if Nat.ltb 0 i then reset_body body payloadStr else body in
      let evs1 :=
        if Nat.ltb 0 i
        then evs ++ [LogWarningEv "retry"
                       ("Attempt " +:+ itoa (Z.of_nat i + 1) +:+ "/" +:+
                        itoa maxAttempts +:+ " for " +:+ description)]
        else evs in
      let r := executeRequestOnce cfg (w i) method description urlStr body1
                 payloadStr headers in
      let o := outcome (transport (w i)) in
      if bool_decide (o.2 = None) || bool_decide (ctx_err (w i) ≠ None) ||
         negb (shouldRetry cfg o.2)
      then Build_Result o.1 o.2 (S n) (evs1 ++ once_events r)
      else loop fuel (S i) (once_reader r) o.1 o.2 (S n) (evs1 ++ once_events r)
  end.
Proof.
  simpl. destruct (if Nat.ltb 0 i then ctx_done (w i) else None); [done |].
  set (b1 := if Nat.ltb 0 i then reset_body body payloadStr else body).
  destruct (executeRequestOnce_outcome cfg (w i) method description urlStr b1
              payloadStr headers) as [Hb Herr].
  simpl. rewrite Hb, Herr.
  destruct (bool_decide _ || bool_decide _); [done |].
  simpl. by destruct (negb (shouldRetry cfg _)).
Qed.

Lemma loop_attempts fuel i body rb le n evs :
  (n ≤ res_attempts (loop fuel i body rb le n evs) ≤ n + fuel)%nat ∧
  (i = 0%nat → (0 < fuel)%nat →
   (S n ≤ res_attempts (loop fuel i body rb le n evs))%nat).
Proof.
  revert i body rb le n evs.
  induction fuel as [|fuel IH]; intros i body rb le n evs; [simpl; lia |].
  rewrite loop_unfold.
  destruct (Nat.ltb_spec 0 i) as [Hi | Hi].
  - destruct (ctx_done (w i)); [simpl; lia |].
    cbv zeta. destruct (_ || _ || _); [simpl; lia |].
    match goal with |- context [loop fuel (S i) ?b ?x ?y (S n) ?e] =>
      destruct (IH (S i) b x y (S n) e) as [Hb _] end.
    lia.
  - cbv zeta. destruct (_ || _ || _); [simpl; lia |].
    match goal with |- context [loop fuel (S i) ?b ?x ?y (S n) ?e] =>
      destruct (IH (S i) b x y (S n) e) as [Hb _] end.
    lia.
Qed.

Lemma loop_warnings fuel i body rb le evs :
  (count_warnings (res_events (loop fuel i body rb le i evs)) + Nat.max i 1 =
   count_warnings evs + Nat.max (res_attempts (loop fuel i body rb le i evs)) 1)%nat.
Proof.
  revert i body rb le evs.
  induction fuel as [|fuel IH]; intros i body rb le evs; [simpl; lia |].
  rewrite loop_unfold.
  destruct (Nat.ltb_spec 0 i) as [Hi | Hi].
  - destruct (ctx_done (w i)); [simpl; lia |].
    cbv zeta. destruct (_ || _ || _).
    + cbn [res_events res_attempts].
      rewrite ?count_warnings_app, ?once_no_warning. simpl. lia.
    + match goal with |- context [loop fuel (S i) ?b ?x ?y (S i) ?e] =>
        pose proof (IH (S i) b x y e) as Hrec;
        destruct (loop_attempts fuel (S i) b x y (S i) e) as [Hb _] end.
      rewrite ?count_warnings_app, ?once_no_warning in Hrec. simpl in Hrec. lia.
  - assert (i = 0%nat) as -> by lia.
    cbv zeta. destruct (_ || _ || _).
    + cbn [res_events res_attempts].
      rewrite ?count_warnings_app, ?once_no_warning. simpl. lia.
    + match goal with |- context [loop fuel 1 ?b ?x ?y 1 ?e] =>
        pose proof (IH 1%nat b x y e) as Hrec;
        destruct (loop_attempts fuel 1 b x y 1 e) as [Hb _] end.
      rewrite ?count_warnings_app, ?once_no_warning in Hrec. simpl in Hrec. lia.
Qed.

Lemma loop_silent fuel i body rb le n evs :
  Enabled (Logging cfg) = false →
  Forall (λ ev, gated_entry ev = false) evs →
  Forall (λ ev, gated_entry ev = false)
    (res_events (loop fuel i body rb le n evs)).
Proof.
  intros Hoff. revert i body rb le n evs.
  induction fuel as [|fuel IH]; intros i body rb le n evs Hevs; [done |].
  rewrite loop_unfold.
  destruct (if Nat.ltb 0 i then ctx_done (w i) else None); [done |].
  cbv zeta.
  match goal with |- context [Build_Result _ _ _ ?e] =>
    assert (Hall : Forall (λ ev, gated_entry ev = false) e) end.
  { apply Forall_app. split; [| by apply once_silent].
    destruct (Nat.ltb 0 i); [| done].
    apply Forall_app. split; [done | by repeat constructor]. }
  destruct (_ || _ || _); [done | by apply IH].
Qed.

(** A nil error comes from an attempt that a status of 200..299
    answered, unless no attempt is made at all. *)
Lemma loop_success fuel i body rb le evs :
  le ≠ None ∨ (0 < fuel)%nat →
  res_err (loop fuel i body rb le i evs) = None →
  ∃ k s b,
    res_attempts (loop fuel i body rb le i evs) = S k ∧
    transport (w k) = Response s b ∧ success_status s ∧
    res_body (loop fuel i body rb le i evs) = b.
Proof.
  revert i body rb le evs.
  induction fuel as [|fuel IH]; intros i body rb le evs Hle.
  { simpl. intros ->. destruct Hle as [Hle | Hle]; [done | lia]. }
  rewrite loop_unfold.
  destruct (if Nat.ltb 0 i then ctx_done (w i) else None); [done |].
  cbv zeta.
  destruct (bool_decide ((outcome (transport (w i))).2 = None)) eqn:Hnil.
  - simpl. intros Herr. exists i.
    destruct (transport (w i)) as [e | e | s e | s b]; try done.
    simpl in *. exists s, b.
    destruct ((s <? 200) || (300 <=? s)) eqn:Hs; [done |].
    apply orb_false_iff in Hs as [H1 H2].
    apply Z.ltb_ge in H1. apply Z.leb_gt in H2.
    unfold success_status. repeat split; [done | lia].
  - apply bool_decide_eq_false in Hnil.
    destruct (_ || _ || _); [simpl; by intros ? |].
    apply IH. by left.
Qed.

End LoopFacts.

Lemma once_same cfg (a a' : Attempt) method description urlStr body payloadStr headers :
  same_but_consumed a a' →
  let r := executeRequestOnce cfg a method description urlStr body payloadStr headers in
  let r' := executeRequestOnce cfg a' method description urlStr body payloadStr headers in
  once_events r = once_events r' ∧
  reset_body (once_reader r) payloadStr = reset_body (once_reader r') payloadStr.
Proof.
  intros (_ & Ht & He & _). unfold executeRequestOnce. rewrite Ht, He.
  destruct (transport a') as [e | e | s e | s b]; simpl;
    rewrite ?reset_body_advance; try done.
  destruct ((s <? 200) || (300 <=? s)); simpl; by rewrite ?reset_body_advance.
Qed.

Lemma loop_same cfg (w w' : World) maxAttempts method description urlStr payloadStr headers
    fuel i body body' rb le n evs :
  (∀ j, same_but_consumed (w j) (w' j)) →
  (i = 0%nat → body = body') →
  reset_body body payloadStr = reset_body body' payloadStr →
  attempt_loop cfg w maxAttempts method description urlStr payloadStr headers
    fuel i body rb le n evs =
  attempt_loop cfg w' maxAttempts method description urlStr payloadStr headers
    fuel i body' rb le n evs.
Proof.
  intros Hsame. revert i body body' rb le n evs.
  induction fuel as [|fuel IH]; intros i body body' rb le n evs H0 Hreset; [done |].
  rewrite !loop_unfold.
  destruct (Hsame i) as (Hd & Ht & He & Hc).
  rewrite <- Hd, <- Ht, <- Hc.
  destruct (if Nat.ltb 0 i then ctx_done (w i) else None); [done |].
  cbv zeta.
  assert (Hb1 : (if Nat.ltb 0 i then reset_body body payloadStr else body) =
                (if Nat.ltb 0 i then reset_body body' payloadStr else body')).
  { destruct (Nat.ltb_spec 0 i); [done | apply H0; lia]. }
  rewrite <- Hb1.
  destruct (once_same cfg (w i) (w' i) method description urlStr
              (if Nat.ltb 0 i then reset_body body payloadStr else body)
              payloadStr headers (Hsame i)) as [Hev Hrd].
  rewrite <- Hev.
  destruct (_ || _ || _); [done |].
  apply IH; [intros Hi; discriminate Hi | exact Hrd].
Qed.

Section CallFacts.

Variable cfg : Config.
Variable w : World.
Variables method description urlStr : string.
Variable body : Reader.
Variable payloadStr : string.
Variable headers : option (gmap string string).

Local Abbreviation call :=
  (executeRequestWithRetry cfg w method description urlStr body payloadStr headers).

(** X4. Under a configuration with [MaxRetries = N], [N + 1] not
    overflowing, a call makes at least one attempt and never more than
    [N + 1], whatever the transport and the context do. *)
Theorem attempts_bounded :
  retries_fit cfg →
  1 <= Z.of_nat (res_attempts call) <= MaxRetries (Retry cfg) + 1.
Proof.
  intros Hfit. unfold retries_fit, max_int in Hfit.
  unfold executeRequestWithRetry.
  rewrite wrap_small by (unfold int_ok, min_int, max_int; lia).
  destruct (loop_attempts cfg w (MaxRetries (Retry cfg) + 1) method description urlStr
              payloadStr headers (Z.to_nat (MaxRetries (Retry cfg) + 1)) 0 body "" None 0 [])
    as [Hb H1].
  specialize (H1 eq_refl ltac:(lia)). lia.
Qed.

(** X5. Under such a configuration a call returns the nil error only
    for a response with a status of 200..299: that response answered
    the last attempt of the call, and its body is the body returned. *)
Theorem success_needs_2xx :
  retries_fit cfg →
  res_err call = None →
  ∃ k s b,
    res_attempts call = S k ∧
    transport (w k) = Response s b ∧ success_status s ∧
    res_body call = b.
Proof.
  intros Hfit. unfold retries_fit, max_int in Hfit.
  unfold executeRequestWithRetry.
  rewrite wrap_small by (unfold int_ok, min_int, max_int; lia).
  apply loop_success. right. lia.
Qed.

(** X6. A call whose attempts before attempt [k] all fail with errors
    to retry and whose attempt [k] is answered with a status of
    200..299 makes exactly [k + 1] attempts and returns the body of
    that response with the nil error; no retry follows a success. *)
Theorem call_succeeds_at (k : nat) (s : Z) (b : string) :
  Z.of_nat k < wrap (MaxRetries (Retry cfg) + 1) →
  (∀ j, (j < k)%nat → passes w j ∧ goes_on cfg w j) →
  passes w k →
  transport (w k) = Response s b →
  success_status s →
  res_body call = b ∧ res_err call = None ∧ res_attempts call = S k.
Proof.
  intros Hk Hprev Hp Ht Hs.
  assert (Hout : outcome (transport (w k)) = (b, None)).
  { rewrite Ht. simpl. unfold success_status in Hs.
    destruct (Z.ltb_spec s 200); [lia |].
    destruct (Z.leb_spec 300 s); [lia | done]. }
  destruct (call_returns_last cfg w method description urlStr body payloadStr headers
              k Hk Hprev Hp) as (Hb & He & Hn).
  - left. intros (_ & e & He & _). rewrite Hout in He. discriminate He.
  - rewrite Hout in Hb, He. done.
Qed.

(** X7. An attempt that fails with an error [shouldRetry] rejects ends
    the call, however many retries are left: the call returns body and
    error of that attempt. *)
Theorem call_stops_on_rejected_error (k : nat) (e : error) :
  Z.of_nat k < wrap (MaxRetries (Retry cfg) + 1) →
  (∀ j, (j < k)%nat → passes w j ∧ goes_on cfg w j) →
  passes w k →
  (outcome (transport (w k))).2 = Some e →
  shouldRetry cfg (Some e) = false →
  res_body call = (outcome (transport (w k))).1 ∧
  res_err call = Some e ∧
  res_attempts call = S k.
Proof.
  intros Hk Hprev Hp He Hno.
  destruct (call_returns_last cfg w method description urlStr body payloadStr headers
              k Hk Hprev Hp) as (Hb & Herr & Hn).
  - left. intros (_ & e' & He' & Hyes). congruence.
  - by rewrite He in Herr.
Qed.

(** X8. A call logs one retry warning for every attempt after the
    first, and none for a retry the context cuts short in the wait:
    the warnings are one fewer than the attempts. *)
Theorem warnings_count :
  count_warnings (res_events call) = Nat.pred (res_attempts call).
Proof.
  unfold executeRequestWithRetry.
  pose proof (loop_warnings cfg w (wrap (MaxRetries (Retry cfg) + 1)) method description
                urlStr payloadStr headers
                (Z.to_nat (wrap (MaxRetries (Retry cfg) + 1))) 0 body "" None []) as H.
  simpl in H. lia.
Qed.

(** X9. With logging disabled a call logs no request entry and no
    response entry, in any attempt. *)
Theorem disabled_logging_is_silent :
  Enabled (Logging cfg) = false →
  Forall (λ ev, gated_entry ev = false) (res_events call).
Proof.
  intros Hoff. unfold executeRequestWithRetry. by apply loop_silent.
Qed.

End CallFacts.

(** X10. How many bytes of the request body the transport reads in an
    attempt has no effect on the call: two platforms that differ in
    nothing else yield the same result, attempts, requests and log
    entries. *)
Theorem consumption_does_not_matter cfg (w w' : World) method description urlStr body
    payloadStr headers :
  (∀ j, same_but_consumed (w j) (w' j)) →
  executeRequestWithRetry cfg w method description urlStr body payloadStr headers =
  executeRequestWithRetry cfg w' method description urlStr body payloadStr headers.
Proof.
  intros Hsame. unfold executeRequestWithRetry. by apply loop_same.
Qed.

(** X11. Every attempt of a call sends the whole payload again: when
    the body is a buffer over the logged payload string, each request
    carries that string, whatever earlier attempts read of it. *)
Theorem retry_resends_payload cfg (w : World) method description urlStr payloadStr headers :
  every_request (λ req, req_body req = Some payloadStr)
    (executeRequestWithRetry cfg w method description urlStr
       (BytesBuffer payloadStr 0) payloadStr headers).
Proof.
  destruct (every_request_of_call cfg method urlStr headers (Some payloadStr) payloadStr _
              (executeRequestWithRetry_ok cfg w method description urlStr
                 (BytesBuffer payloadStr 0) payloadStr headers (Some payloadStr)
                 (unread_fresh_buffer payloadStr)
                 (unread_reset_buffer payloadStr 0 payloadStr))) as [Hreq _].
  intros req Hin. by rewrite (Hreq req Hin).
Qed.

(** ** The retry decision on a status code *)

Lemma uint_all_num (d : Decimal.uint) : all_num (NilEmpty.string_of_uint d) = true.
Proof. induction d; simpl; by rewrite ?IHd. Qed.

Lemma itoa_all_num (n : Z) : all_num (itoa n) = true.
Proof.
  unfold itoa. destruct (Z.to_int n) as [d | d]; simpl.
  - destruct d; try done; apply (uint_all_num (_ d)) || exact (uint_all_num _).
  - destruct d; try done; exact (uint_all_num _).
Qed.

(** A pattern that starts with a byte that is no digit and no minus
    sign does not occur in what [%d] writes. *)
Lemma Contains_num (t : string) (c : ascii) (sub : string) :
  all_num t = true → num_char c = false → Contains t (String c sub) = false.
Proof.
  intros Ht Hc. induction t as [|d t IH]; [done |].
  simpl in Ht. apply andb_true_iff in Ht as [Hd Ht].
  rewrite Contains_cons, (IH Ht), orb_false_r. simpl.
  destruct (Ascii.eqb_spec c d) as [-> | Hne]; [congruence | done].
Qed.

Lemma status_error_contains (s N : Z) :
  Contains (status_error s) ("response code: " +:+ itoa N) = HasPrefix (itoa s) (itoa N).
Proof.
  unfold status_error. rewrite !append_cons, !append_nil. simpl.
  rewrite Contains_num; [apply orb_false_r | apply itoa_all_num | done].
Qed.

Lemma status_error_no_network_word (s : Z) :
  Contains (status_error s) "connection" || Contains (status_error s) "timeout" ||
  Contains (status_error s) "EOF" = false.
Proof.
  unfold status_error. rewrite !append_cons, !append_nil. simpl.
  by rewrite !Contains_num by (apply itoa_all_num || done).
Qed.

Lemma status_loop_prefix (codes : list Z) (s : Z) :
  status_loop codes (status_error s) =
  existsb (λ N, HasPrefix (itoa s) (itoa N)) codes.
Proof.
  induction codes as [|N codes IH]; [done |].
  change (status_loop (N :: codes) (status_error s)) with
    (if Contains (status_error s) ("response code: " +:+ itoa N)
     then true else status_loop codes (status_error s)).
  rewrite status_error_contains, IH. simpl.
  by destruct (HasPrefix (itoa s) (itoa N)).
Qed.

(** The error of a status code is retried when what [%d] writes for a
    code of the set starts what it writes for the status code. *)
Lemma status_error_retry (cfg : Config) (s : Z) :
  shouldRetry cfg (Some (status_error s)) =
  existsb (λ N, HasPrefix (itoa s) (itoa N)) (RetryOnStatus (Retry cfg)).
Proof.
  unfold shouldRetry.
  rewrite status_error_no_network_word, status_loop_prefix.
  by destruct (existsb _ _).
Qed.

Lemma itoa_inj (a b : Z) : itoa a = itoa b → a = b.
Proof.
  unfold itoa. intros H. apply DecimalZ.to_int_inj.
  assert (Hnn : ∀ z, Z.to_int z ≠ Decimal.Pos Decimal.Nil ∧
                     Z.to_int z ≠ Decimal.Neg Decimal.Nil).
  { intros [|p|p]; simpl; (split; [| try done]); try done;
      intros [= Hp]; by apply DecimalPos.Unsigned.to_uint_nonnil in Hp. }
  apply (f_equal NilZero.int_of_string) in H.
  rewrite !NilZero.isi in H by apply Hnn. by injection H.
Qed.

Lemma itoa_length_3 (s : Z) : http_status s → String.length (itoa s) = 3%nat.
Proof.
  unfold http_status. intros Hs.
  assert (Hall : forallb (λ k, Nat.eqb (String.length (itoa (100 + Z.of_nat k))) 3)
                   (seq 0 900) = true) by (by vm_compute).
  rewrite forallb_forall in Hall.
  specialize (Hall (Z.to_nat (s - 100))).
  replace (100 + Z.of_nat (Z.to_nat (s - 100))) with s in Hall by lia.
  apply Nat.eqb_eq, Hall, in_seq. lia.
Qed.

Lemma http_status_prefix (s N : Z) :
  http_status s → http_status N → HasPrefix (itoa s) (itoa N) = true ↔ s = N.
Proof.
  intros Hs HN. split.
  - intros H. apply HasPrefix_spec in H as [rest Hrest].
    pose proof (f_equal String.length Hrest) as Hlen.
    rewrite append_length, !itoa_length_3 in Hlen by done.
    destruct rest; [| simpl in Hlen; lia].
    rewrite append_empty_r in Hrest. by apply itoa_inj.
  - intros ->. apply HasPrefix_spec. exists "". by rewrite append_empty_r.
Qed.

Lemma once_err_status cfg a method description urlStr body payloadStr headers (s : Z)
    (b : string) :
  transport a = Response s b →
  ¬ success_status s →
  once_err (executeRequestOnce cfg a method description urlStr body payloadStr headers) =
    Some (status_error s).
Proof.
  intros Ht Hs.
  destruct (executeRequestOnce_outcome cfg a method description urlStr body
              payloadStr headers) as [_ He].
  rewrite He, Ht. simpl. unfold success_status in Hs.
  destruct (Z.ltb_spec s 200); [done |].
  destruct (Z.leb_spec 300 s); [done | lia].
Qed.

(** X12. The decision to retry a response looks for the status codes of
    the set in the text of the error: a response with a status outside
    200..299 is retried exactly when the decimal writing of some code of
    [RetryOnStatus] starts the decimal writing of the status, so that a
    code 50 in the set retries a 503. *)
Theorem status_retry_by_prefix cfg a method description urlStr body payloadStr headers
    (s : Z) (b : string) :
  transport a = Response s b →
  ¬ success_status s →
  shouldRetry cfg
    (once_err (executeRequestOnce cfg a method description urlStr body payloadStr headers))
    = true ↔
  ∃ N rest, N ∈ RetryOnStatus (Retry cfg) ∧ itoa s = itoa N +:+ rest.
Proof.
  intros Ht Hs. rewrite (once_err_status _ _ _ _ _ _ _ _ s b Ht Hs).
  rewrite status_error_retry, existsb_exists. split.
  - intros (N & Hin & Hp). apply HasPrefix_spec in Hp as [rest Hrest].
    exists N, rest. split; [by apply list_elem_of_In | done].
  - intros (N & rest & Hin & Hrest). exists N.
    split; [by apply list_elem_of_In |]. apply HasPrefix_spec. by exists rest.
Qed.

Lemma status_retry_by_prefix_witness :
  let cfg := WithRetry (NewConfig (30 * Second))
               {| MaxRetries := 2; RetryDelay := Second; RetryOnStatus := [50] |} in
  shouldRetry cfg
    (once_err (executeRequestOnce cfg (always_status 503 0%nat) methodGET "list users"
                 "https://api.example.com/users" NilReader "" None)) = true.
Proof.
  intros cfg.
  apply (status_retry_by_prefix cfg (always_status 503 0%nat) methodGET "list users"
           "https://api.example.com/users" NilReader "" None 503 "body" eq_refl).
  - unfold success_status. lia.
  - exists 50, "3". split; [apply list_elem_of_here | reflexivity].
Defined.

(** X13. When the status of the response and the codes of
    [RetryOnStatus] are all of three digits (100..999), a response with
    a status outside 200..299 is retried exactly when its status is in
    the set. *)
Theorem status_retry_exact cfg a method description urlStr body payloadStr headers
    (s : Z) (b : string) :
  transport a = Response s b →
  ¬ success_status s →
  http_status s →
  Forall http_status (RetryOnStatus (Retry cfg)) →
  shouldRetry cfg
    (once_err (executeRequestOnce cfg a method description urlStr body payloadStr headers))
    = true ↔
  s ∈ RetryOnStatus (Retry cfg).
Proof.
  intros Ht Hs Hhs Hall. rewrite (once_err_status _ _ _ _ _ _ _ _ s b Ht Hs).
  rewrite status_error_retry, existsb_exists. rewrite Forall_forall in Hall. split.
  - intros (N & Hin & Hp). apply list_elem_of_In in Hin.
    apply http_status_prefix in Hp; [by subst | done | by apply Hall].
  - intros Hin. exists s. split; [by apply list_elem_of_In |].
    by apply http_status_prefix.
Qed.

Lemma status_retry_exact_witness :
  shouldRetry (NewConfig (30 * Second))
    (once_err (executeRequestOnce (NewConfig (30 * Second)) (always_status 503 0%nat)
                 methodGET "list users" "https://api.example.com/users" NilReader "" None))
    = true.
Proof.
  apply (status_retry_exact (NewConfig (30 * Second)) (always_status 503 0%nat) methodGET
           "list users" "https://api.example.com/users" NilReader "" None 503 "body"
           eq_refl).
  - unfold success_status. lia.
  - unfold http_status. lia.
  - simpl. repeat constructor; unfold http_status; lia.
  - simpl. do 2 apply list_elem_of_further. apply list_elem_of_here.
Defined.

(** A 429, which the default set does not hold, is not retried. *)
Example status_429_not_retried :
  shouldRetry (NewConfig (30 * Second)) (Some (status_error 429)) = false.
Proof. by vm_compute. Qed.

(** X14. Under a configuration whose [RetryOnStatus] is empty, as
    [WithRetry] leaves it when only [MaxRetries] and [RetryDelay] are
    given, no response is ever retried: the attempt a response answers
    is the last of the call, whatever its status and however many
    retries are configured. *)
Theorem empty_status_set_never_retries cfg (w : World) method description urlStr body
    payloadStr headers (k : nat) (s : Z) (b : string) :
  RetryOnStatus (Retry cfg) = [] →
  Z.of_nat k < wrap (MaxRetries (Retry cfg) + 1) →
  (∀ j, (j < k)%nat → passes w j ∧ goes_on cfg w j) →
  passes w k →
  transport (w k) = Response s b →
  let call := executeRequestWithRetry cfg w method description urlStr body payloadStr headers in
  res_body call = b ∧ res_attempts call = S k ∧
  (¬ success_status s → res_err call = Some (status_error s)).
Proof.
  intros Hempty Hk Hprev Hp Ht call.
  destruct (call_returns_last cfg w method description urlStr body payloadStr headers
              k Hk Hprev Hp) as (Hb & He & Hn).
  - left. intros (_ & e & He & Hyes). rewrite Ht in He. simpl in He.
    destruct ((s <? 200) || (300 <=? s)); [| done].
    injection He as <-. fold (status_error s) in Hyes.
    rewrite status_error_retry, Hempty in Hyes. done.
  - fold call in Hb, He, Hn. rewrite Ht in Hb, He. simpl in Hb, He.
    split; [done |]. split; [done |].
    intros Hs. rewrite He. unfold success_status in Hs.
    destruct (Z.ltb_spec s 200); [done |].
    destruct (Z.leb_spec 300 s); [done | lia].
Qed.

Lemma empty_status_set_never_retries_witness :
  let cfg := WithRetry (NewConfig (30 * Second))
               {| MaxRetries := 3; RetryDelay := 2 * Second; RetryOnStatus := [] |} in
  let call := executeRequestWithRetry cfg always_503 methodGET "list users"
                "https://api.example.com/users" NilReader "" None in
  res_body call = "busy 0" ∧ res_attempts call = 1%nat.
Proof.
  intros cfg call.
  destruct (empty_status_set_never_retries cfg always_503 methodGET "list users"
              "https://api.example.com/users" NilReader "" None 0 503 "busy 0")
    as (Hb & Hn & _).
  - reflexivity.
  - by vm_compute.
  - intros j Hj. lia.
  - by left.
  - reflexivity.
  - by split.
Defined.

(** ** Concrete calls of the pipeline *)

Lemma attempts_bounded_witness :
  1 <= Z.of_nat (res_attempts
                   (executeRequestWithRetry (retrying 3) done_in_wait methodGET "list users"
                      "https://api.example.com/users" NilReader "" None)) <= 3 + 1.
Proof.
  apply (attempts_bounded (retrying 3) done_in_wait methodGET "list users"
           "https://api.example.com/users" NilReader "" None).
  unfold retries_fit, max_int. simpl. lia.
Defined.

Lemma success_needs_2xx_witness :
  ∃ k s b,
    res_attempts (executeRequestWithRetry (retrying 3) (ok_at 2) methodGET "list users"
                    "https://api.example.com/users" NilReader "" None) = S k ∧
    transport (ok_at 2 k) = Response s b ∧ success_status s ∧
    res_body (executeRequestWithRetry (retrying 3) (ok_at 2) methodGET "list users"
                "https://api.example.com/users" NilReader "" None) = b.
Proof.
  apply (success_needs_2xx (retrying 3) (ok_at 2) methodGET "list users"
           "https://api.example.com/users" NilReader "" None).
  - unfold retries_fit, max_int. simpl. lia.
  - by vm_compute.
Defined.

Lemma call_succeeds_at_witness :
  let call := executeRequestWithRetry (retrying 3) (ok_at 2) methodGET "list users"
                "https://api.example.com/users" NilReader "" None in
  res_body call = "done" ∧ res_err call = None ∧ res_attempts call = 3%nat.
Proof.
  apply (call_succeeds_at (retrying 3) (ok_at 2) methodGET "list users"
           "https://api.example.com/users" NilReader "" None 2 200 "done").
  - by vm_compute.
  - intros j Hj. split; [by right |].
    split; [done |].
    exists (status_error 503).
    destruct j as [|[|j]]; [by vm_compute | by vm_compute | lia].
  - by right.
  - reflexivity.
  - unfold success_status. lia.
Defined.

Lemma call_stops_on_rejected_error_witness :
  let call := executeRequestWithRetry (retrying 5) (always_status 404) methodGET "lookup"
                "https://api.example.com/users/7" NilReader "" None in
  res_body call = "body" ∧
  res_err call = Some "received non-2xx response code: 404" ∧
  res_attempts call = 1%nat.
Proof.
  apply (call_stops_on_rejected_error (retrying 5) (always_status 404) methodGET "lookup"
           "https://api.example.com/users/7" NilReader "" None 0
           "received non-2xx response code: 404").
  - by vm_compute.
  - intros j Hj. lia.
  - by left.
  - reflexivity.
  - by vm_compute.
Defined.

Lemma disabled_logging_is_silent_witness :
  let quiet := WithLogging (retrying 2)
                 {| Enabled := false; LogRequestBody := true; LogResponseBody := true;
                    LogHeaders := true; SanitizeHeaders := true |} in
  let call := executeRequestWithRetry quiet always_503 methodGET "list users"
                "https://api.example.com/users" NilReader "" None in
  Forall (λ ev, gated_entry ev = false) (res_events call) ∧
  count_warnings (res_events call) = 2%nat.
Proof.
  intros quiet call. split; [| by vm_compute].
  by apply (disabled_logging_is_silent quiet always_503 methodGET "list users"
              "https://api.example.com/users" NilReader "" None).
Defined.

Lemma consumption_does_not_matter_witness :
  executeRequestWithRetry (retrying 2) always_503 methodPOST "send"
    "https://api.example.com/webhook" (BytesBuffer "payload" 0) "payload" None =
  executeRequestWithRetry (retrying 2) reading_503 methodPOST "send"
    "https://api.example.com/webhook" (BytesBuffer "payload" 0) "payload" None.
Proof.
  apply (consumption_does_not_matter (retrying 2) always_503 reading_503 methodPOST "send"
           "https://api.example.com/webhook" (BytesBuffer "payload" 0) "payload" None).
  intros j. by repeat split.
Defined.

(** ** More of the payload codec *)

Section CodecFacts.

Variable url_Parse : string → URL + error.
Variable url_String : URL → string.
Variable url_ParseQuery : string → Values.
Variable values_Encode : Values → string.
Variable json_Marshal : gmap string Value → string + error.
Variable range : ∀ A : Type, gmap string A → list (string * A).
Hypothesis range_perm : ∀ (A : Type) (m : gmap string A), range A m ≡ₚ map_to_list m.

Local Abbreviation makeRequest' :=
  (makeRequest url_Parse url_String url_ParseQuery values_Encode json_Marshal range).
Local Abbreviation makeRequestWithString' := (makeRequestWithString url_Parse url_String).

(** X15. For a method that carries a body and a structured payload that
    [json.Marshal] accepts, the call is the pipeline run on a buffer
    over the marshalled text: every request carries that text as its
    body and goes to the URL as parsed, no query being added, and the
    text is the logged payload. *)
Theorem structured_payload_marshalled st w method description urlStr
    (payload : gmap string Value) headers (u : URL) (jsonPayload : string) :
  method ∈ body_methods →
  url_Parse urlStr = inl u →
  json_Marshal payload = inl jsonPayload →
  let call := makeRequest' st w method description urlStr (Some payload) headers in
  call = executeRequest st w method description (url_String u)
           (BytesBuffer jsonPayload 0) jsonPayload headers ∧
  (∀ st' r, call = (st', Some r) →
     every_request (λ req, req_url req = url_String u ∧ req_body req = Some jsonPayload) r ∧
     every_logged_payload (λ logged, logged = jsonPayload) r).
Proof.
  intros Hm Hu Hj call.
  assert (Hcall : call = executeRequest st w method description (url_String u)
                           (BytesBuffer jsonPayload 0) jsonPayload headers).
  { subst call. unfold makeRequest.
    by rewrite Hu, (body_method_not_query _ Hm), Hj. }
  split; [exact Hcall |].
  intros st' r Hr. rewrite Hcall in Hr.
  destruct (executeRequest_ok _ _ _ _ _ _ _ _ (Some jsonPayload) _ _
              (unread_fresh_buffer jsonPayload)
              (unread_reset_buffer jsonPayload 0 jsonPayload) Hr) as (cfg & _ & Hall).
  destruct (every_request_of_call _ _ _ _ _ _ _ Hall) as [Hreq Hlog].
  split; [| exact Hlog].
  intros req Hin. by rewrite (Hreq req Hin).
Qed.

(** X16. A URL that does not parse, or a structured payload that
    [json.Marshal] refuses, ends the call before the pipeline: the
    error is returned with the empty body, no attempt is made, nothing
    is logged, and the package variables are left as they are, not even
    initialized. *)
Theorem codec_error_ends_call st w method description urlStr
    (payload : option (gmap string Value)) (text : string) headers (e : error) :
  (url_Parse urlStr = inr e →
     makeRequest' st w method description urlStr payload headers =
       (st, Some (Build_Result "" (Some e) 0 [])) ∧
     makeRequestWithString' st w method description urlStr text headers =
       (st, Some (Build_Result "" (Some e) 0 []))) ∧
  (∀ u p, url_Parse urlStr = inl u → method ∈ body_methods →
     payload = Some p → json_Marshal p = inr e →
     makeRequest' st w method description urlStr payload headers =
       (st, Some (Build_Result "" (Some e) 0 []))).
Proof.
  split.
  - intros Hu. unfold makeRequest, makeRequestWithString. by rewrite Hu.
  - intros u p Hu Hm -> Hj. unfold makeRequest.
    by rewrite Hu, (body_method_not_query _ Hm), Hj.
Qed.

(** X17. A nil structured payload gives a request without body to the
    URL as parsed, whatever the method: a POST, PUT or PATCH of a nil
    map sends no body, and the logged payload is empty. *)
Theorem nil_payload_no_body st w method description urlStr headers (u : URL) :
  url_Parse urlStr = inl u →
  let call := makeRequest' st w method description urlStr None headers in
  call = executeRequest st w method description (url_String u) NilReader "" headers ∧
  (∀ st' r, call = (st', Some r) →
     every_request (λ req, req_url req = url_String u ∧ req_body req = None) r ∧
     every_logged_payload (λ logged, logged = "") r).
Proof.
  intros Hu call.
  assert (Hcall : call = executeRequest st w method description (url_String u)
                           NilReader "" headers).
  { subst call. unfold makeRequest. by rewrite Hu. }
  split; [exact Hcall |].
  intros st' r Hr. rewrite Hcall in Hr.
  destruct (executeRequest_ok st w method description (url_String u) NilReader ""
              headers None st' r eq_refl eq_refl Hr) as (cfg & _ & Hall).
  destruct (every_request_of_call _ _ _ _ _ _ _ Hall) as [Hreq Hlog].
  split; [| exact Hlog].
  intros req Hin. by rewrite (Hreq req Hin).
Qed.

(** X18. The public operations GET, DELETE, HEAD and OPTIONS put every
    query parameter, as it is, under its name into the query of the
    URL, in the place of any parameter of that name the URL had; the
    parameters of the URL under other names stay, and with nil or empty
    parameters the query is the one of the URL, encoded anew.  No
    request has a body. *)
Theorem query_operations st w description urlStr
    (queryParams : option (gmap string string)) headers (u : URL) :
  url_Parse urlStr = inl u →
  let q := set_params range (url_ParseQuery (RawQuery u)) (to_payload range queryParams) in
  let target := url_String {| url_parts := url_parts u; RawQuery := values_Encode q |} in
  (∀ k, q !! k = match default ∅ queryParams !! k with
                 | Some v => Some [v]
                 | None => url_ParseQuery (RawQuery u) !! k
                 end) ∧
  MakeGETRequest url_Parse url_String url_ParseQuery values_Encode json_Marshal range
    st w description urlStr queryParams headers =
    executeRequest st w methodGET description target NilReader "" headers ∧
  MakeDELETERequest url_Parse url_String url_ParseQuery values_Encode json_Marshal range
    st w description urlStr queryParams headers =
    executeRequest st w methodDELETE description target NilReader "" headers ∧
  MakeHEADRequest url_Parse url_String url_ParseQuery values_Encode json_Marshal range
    st w description urlStr queryParams headers =
    executeRequest st w methodHEAD description target NilReader "" headers ∧
  MakeOPTIONSRequest url_Parse url_String url_ParseQuery values_Encode json_Marshal range
    st w description urlStr queryParams headers =
    executeRequest st w methodOPTIONS description target NilReader "" headers.
Proof.
  intros Hu q target. split.
  - intros k. subst q.
    rewrite (set_params_lookup range range_perm), (to_payload_lookup range range_perm).
    by destruct (default ∅ queryParams !! k).
  - unfold MakeGETRequest, MakeDELETERequest, MakeHEADRequest, MakeOPTIONSRequest,
      makeRequest.
    by rewrite Hu.
Qed.

End CodecFacts.

Lemma structured_payload_marshalled_witness :
  let call := makeRequest parse_whole string_whole no_query encode_pairs marshal_fixed
                range_reversed uninitialized always_200 methodPOST "create user"
                "https://api.example.com/users" (Some ∅) None in
  wire_bodies <$> call.2 = Some [Some "{}"] ∧
  (∀ st' r, call = (st', Some r) →
     every_request (λ req, req_url req = "https://api.example.com/users" ∧
                           req_body req = Some "{}") r ∧
     every_logged_payload (λ logged, logged = "{}") r).
Proof.
  intros call. split; [by vm_compute |].
  apply (structured_payload_marshalled parse_whole string_whole no_query encode_pairs
           marshal_fixed range_reversed uninitialized always_200 methodPOST "create user"
           "https://api.example.com/users" ∅ None
           {| url_parts := "https://api.example.com/users"; RawQuery := "" |} "{}").
  - apply list_elem_of_here.
  - reflexivity.
  - reflexivity.
Defined.

Lemma codec_error_ends_call_witness :
  makeRequest parse_whole string_whole no_query encode_pairs marshal_none range_reversed
    uninitialized always_200 methodPOST "create user" "https://api.example.com/users"
    (Some ∅) None =
  (uninitialized, Some (Build_Result "" (Some "json: unsupported value") 0 [])).
Proof.
  apply (codec_error_ends_call parse_whole string_whole no_query encode_pairs marshal_none
           range_reversed uninitialized always_200 methodPOST "create user"
           "https://api.example.com/users" (Some ∅) "" None "json: unsupported value")
    with (u := {| url_parts := "https://api.example.com/users"; RawQuery := "" |}) (p := ∅).
  - reflexivity.
  - apply list_elem_of_here.
  - reflexivity.
  - reflexivity.
Defined.

Lemma nil_payload_no_body_witness :
  let call := makeRequest parse_whole string_whole no_query encode_pairs marshal_none
                range_reversed uninitialized always_200 methodPOST "ping"
                "https://api.example.com/ping" None None in
  wire_bodies <$> call.2 = Some [None] ∧
  (∀ st' r, call = (st', Some r) →
     every_request (λ req, req_url req = "https://api.example.com/ping" ∧
                           req_body req = None) r ∧
     every_logged_payload (λ logged, logged = "") r).
Proof.
  intros call. split; [by vm_compute |].
  apply (nil_payload_no_body parse_whole string_whole no_query encode_pairs marshal_none
           range_reversed uninitialized always_200 methodPOST "ping"
           "https://api.example.com/ping" None
           {| url_parts := "https://api.example.com/ping"; RawQuery := "" |}).
  reflexivity.
Defined.

Lemma query_operations_witness :
  let params : option (gmap string string) := Some {[ "page" := "1"; "limit" := "10" ]} in
  let q := set_params range_reversed ∅ (to_payload range_reversed params) in
  q !! "page" = Some ["1"] ∧ q !! "limit" = Some ["10"] ∧ q !! "sort" = None.
Proof.
  intros params q.
  destruct (query_operations parse_whole string_whole no_query encode_pairs marshal_none
              range_reversed range_reversed_perm uninitialized always_200 "Get Users"
              "https://api.example.com/users" params None
              {| url_parts := "https://api.example.com/users"; RawQuery := "" |} eq_refl)
    as (Hq & _).
  split; [exact (Hq "page") |]. split; [exact (Hq "limit") | exact (Hq "sort")].
Defined.

(** ** More of the raw-XML operation *)

(** X19. The raw-XML operation leaves the caller's maps alone in the
    two other cases: a map that has the key Content-Type is not written
    to and its value is the one sent; for nil headers a new map is
    made, every map the caller holds stays as it is, and the request
    carries Content-Type: text/xml; charset=UTF-8 alone. *)
Theorem xml_post_frame st w (h : Store) description urlStr xmlPayload :
  (∀ l m, h !! l = Some m → is_Some (m !! "Content-Type") →
     let res := MakeXMLPostRequest st w h description urlStr xmlPayload (Some l) in
     res.1.1 = h ∧
     (res.1.2, res.2) =
       executeRequest st w methodPOST description urlStr
         (BytesBuffer xmlPayload 0) xmlPayload (Some m)) ∧
  (let res := MakeXMLPostRequest st w h description urlStr xmlPayload None in
   (∀ l, is_Some (h !! l) → res.1.1 !! l = h !! l) ∧
   (res.1.2, res.2) =
     executeRequest st w methodPOST description urlStr
       (BytesBuffer xmlPayload 0) xmlPayload
       (Some {[ "Content-Type" := "text/xml; charset=UTF-8" ]})).
Proof.
  split.
  - intros l m Hl Hct res.
    destruct (MakeXMLPostRequest_spec st w h description urlStr xmlPayload (Some l) m Hl)
      as [Hstore Hrun].
    fold res in Hstore, Hrun. simpl in Hstore.
    rewrite decide_True in Hstore by (split; [by eexists | done]).
    split; [done |]. rewrite Hrun. unfold xml_headers.
    destruct Hct as [v Hv]. by rewrite Hv.
  - intros res.
    destruct (MakeXMLPostRequest_spec st w h description urlStr xmlPayload None ∅ eq_refl)
      as [Hstore Hrun].
    fold res in Hstore, Hrun. simpl in Hstore.
    rewrite ?decide_False in Hstore by (intros [[? ?] _]; done).
    split; [| exact Hrun].
    intros l Hl. rewrite Hstore. apply lookup_insert_ne.
    intros <-. apply elem_of_dom in Hl. by apply is_fresh in Hl.
Qed.

Lemma xml_post_frame_witness :
  let m : gmap string string := {[ "Content-Type" := "application/soap+xml" ]} in
  let h : Store := {[ 1%positive := m ]} in
  (MakeXMLPostRequest uninitialized always_200 h "ping"
     "https://soap.example.com/service" "<ping/>" (Some 1%positive)).1.1 = h ∧
  (MakeXMLPostRequest uninitialized always_200 h "ping"
     "https://soap.example.com/service" "<ping/>" None).1.1 !! 1%positive = Some m.
Proof.
  intros m h.
  destruct (xml_post_frame uninitialized always_200 h "ping"
              "https://soap.example.com/service" "<ping/>") as [Hkeep Hnil].
  split.
  - apply (Hkeep 1%positive m); [reflexivity | by eexists].
  - destruct Hnil as [Hframe _]. rewrite Hframe; [reflexivity | by eexists].
Defined.

(** ** More of the sanitizer and of the logger *)

Lemma sanitize_sensitive (key value : string) :
  sensitive_name key →
  sanitizeHeaderValue key value =
    if 10 <? len value then slice_to value 10 +:+ "..." else "***".
Proof.
  intros (term & Hin & Hsub). unfold sanitizeHeaderValue.
  apply sanitize_loop_hit. exists term. split; [done |].
  apply Contains_ToLower; [| done].
  by apply (proj1 (Forall_forall _ _) sensitiveHeaders_lower).
Qed.

(** X20. Of the value of a sensitive header the log shows at most its
    first 10 bytes: the logged text is never longer than 13 bytes, two
    values longer than 10 bytes that start with the same 10 bytes are
    logged alike, and so are any two values of 10 bytes or fewer. *)
Theorem sanitize_hides_tail (key value value' : string) :
  sensitive_name key →
  (String.length (sanitizeHeaderValue key value) ≤ 13)%nat ∧
  (10 < len value → 10 < len value' → slice_to value 10 = slice_to value' 10 →
     sanitizeHeaderValue key value = sanitizeHeaderValue key value') ∧
  (len value <= 10 → len value' <= 10 →
     sanitizeHeaderValue key value = sanitizeHeaderValue key value').
Proof.
  intros Hkey. rewrite !sanitize_sensitive by done. split; [| split].
  - destruct (Z.ltb_spec 10 (len value)) as [Hlen | Hlen]; [| simpl; lia].
    destruct (slice_to_split value 10) as [_ Hl]; [unfold len in Hlen; lia |].
    rewrite append_length, Hl. simpl. lia.
  - intros H1 H2 Heq.
    by rewrite (proj2 (Z.ltb_lt _ _) H1), (proj2 (Z.ltb_lt _ _) H2), Heq.
  - intros H1 H2.
    by rewrite (proj2 (Z.ltb_ge _ _) H1), (proj2 (Z.ltb_ge _ _) H2).
Qed.

Lemma sanitize_hides_tail_witness :
  sanitizeHeaderValue "X-Auth-Token" "0123456789abcdef" =
  sanitizeHeaderValue "X-Auth-Token" "0123456789uvwxyz-and-more".
Proof.
  destruct (sanitize_hides_tail "X-Auth-Token" "0123456789abcdef"
              "0123456789uvwxyz-and-more") as (_ & Hlong & _).
  - exists "auth". split; [apply list_elem_of_further, list_elem_of_here |].
    by exists "X-", "Auth", "-Token".
  - apply Hlong; [by vm_compute | by vm_compute | reflexivity].
Defined.

(** X21. The headers that are logged have the names of the headers that
    are sent; without sanitization, and for every header whose name is
    ASCII and has no sensitive term, the logged value is the value
    sent; with sanitization the value of a header with a sensitive name
    is masked. *)
Theorem formatHeaders_names_and_values (headers : gmap string string) (sanitize : bool) :
  dom (formatHeaders headers sanitize) = dom headers ∧
  formatHeaders headers false = headers ∧
  (∀ key, ascii_only key = true → ¬ sensitive_name key →
     formatHeaders headers sanitize !! key = headers !! key) ∧
  (∀ key value, sensitive_name key → headers !! key = Some value →
     formatHeaders headers true !! key =
       Some (if 10 <? len value then slice_to value 10 +:+ "..." else "***")).
Proof.
  split; [| split; [| split]].
  - apply set_eq. intros key. rewrite !elem_of_dom, formatHeaders_lookup.
    by rewrite fmap_is_Some.
  - apply map_eq. intros key. rewrite formatHeaders_lookup.
    by destruct (headers !! key).
  - intros key Hascii Hkey. rewrite formatHeaders_lookup.
    destruct (headers !! key) as [value|]; [| done]. simpl.
    destruct sanitize; [| done].
    by rewrite (sanitize_plain key value Hascii Hkey).
  - intros key value Hkey Hv. rewrite formatHeaders_lookup, Hv. simpl.
    by rewrite sanitize_sensitive.
Qed.

Section FormatBodyFacts.

Variable JSON : Type.
Variable json_Unmarshal : string → option JSON.
Variable json_Marshal_value : JSON → option string.

Local Abbreviation formatBody' := (formatBody JSON json_Unmarshal json_Marshal_value).

(** X22. The body that is logged: "null" for the empty body; for a body
    that is JSON its compact form, whatever its length; for any other
    body the body itself when it has at most 1000 bytes, and its first
    1000 bytes followed by "..." when it is longer. *)
Theorem formatBody_cases (body : string) :
  formatBody' "" = "null" ∧
  (∀ jsonObj compactJSON,
     body ≠ "" → json_Unmarshal body = Some jsonObj →
     json_Marshal_value jsonObj = Some compactJSON →
     formatBody' body = compactJSON) ∧
  (body ≠ "" →
   json_Unmarshal body = None ∨
   (∃ jsonObj, json_Unmarshal body = Some jsonObj ∧ json_Marshal_value jsonObj = None) →
   (len body <= 1000 → formatBody' body = body) ∧
   (1000 < len body →
      ∃ first rest, body = first +:+ rest ∧ len first = 1000 ∧
                    formatBody' body = first +:+ "...")).
Proof.
  split; [done |]. split.
  - intros jsonObj compactJSON Hne Hu Hm. unfold formatBody.
    destruct (String.eqb_spec body ""); [done |]. by rewrite Hu, Hm.
  - intros Hne Hnot.
    assert (Hasis : formatBody' body =
                    if 1000 <? len body then slice_to body 1000 +:+ "..." else body).
    { unfold formatBody. destruct (String.eqb_spec body ""); [done |].
      destruct Hnot as [-> | (jsonObj & -> & ->)]; done. }
    rewrite Hasis. split; intros Hlen.
    + by rewrite (proj2 (Z.ltb_ge _ _) Hlen).
    + rewrite (proj2 (Z.ltb_lt _ _) Hlen).
      destruct (slice_to_split body 1000) as [Hb Hl]; [unfold len in Hlen; lia |].
      exists (slice_to body 1000), (drop_bytes 1000 body).
      split; [done |]. split; [unfold len; by rewrite Hl | done].
Qed.

End FormatBodyFacts.

Lemma formatBody_cases_witness :
  formatBody unit unmarshal_braces marshal_braces "service unavailable" =
    "service unavailable" ∧
  formatBody unit unmarshal_braces marshal_braces "{}" = "{}".
Proof.
  destruct (formatBody_cases unit unmarshal_braces marshal_braces "service unavailable")
    as (_ & _ & Hplain).
  destruct (formatBody_cases unit unmarshal_braces marshal_braces "{}")
    as (_ & Hjson & _).
  split.
  - apply Hplain; [discriminate | by left | by vm_compute].
  - apply (Hjson tt "{}"); [discriminate | reflexivity | reflexivity].
Defined.

Lemma retry_resends_payload_witness :
  let call := executeRequestWithRetry (retrying 2) reading_503 methodPOST "send"
                "https://api.example.com/webhook" (BytesBuffer "payload" 0) "payload" None in
  every_request (λ req, req_body req = Some "payload") call ∧
  wire_bodies call = [Some "payload"; Some "payload"; Some "payload"].
Proof.
  intros call. split; [| by vm_compute].
  apply (retry_resends_payload (retrying 2) reading_503 methodPOST "send"
           "https://api.example.com/webhook" "payload" None).
Defined.
